(** * Scale scheduler: resource manager and Mesos callback dispatch

    A shallow embedding of [scheduler/resources/manager.py] (class
    [ResourceManager]) and of the callbacks of
    [scheduler/scale_scheduler.py] (class [ScaleScheduler]).

    Python dictionaries are finite maps ([gmap]), the reconciliation set
    is a finite set ([gset]), and a method that mutates [self] is a
    function from the state before the call to the state after it.  A
    method that can raise returns the state it leaves behind together with
    an [outcome]: what was mutated before the exception stays mutated, as
    in Python.  The locks of the managers are not modelled: every method
    is taken as one atomic step. *)

From Stdlib Require Import ZArith Lia.
From stdpp Require Import gmap strings list fin_maps.

Local Open Scope Z_scope.

(** ** Exceptions *)

(** The exception classes the modelled code can meet.  [DatabaseError] is
    django's; [OtherException] stands for any other subclass of
    [Exception]. *)
Inductive exn : Type :=
| TypeError
| KeyError
| DatabaseError
| OtherException.

Inductive outcome : Type :=
| Returned
| Raised (e : exn).

#[global] Instance exn_eq_dec : EqDecision exn.
Proof. solve_decision. Defined.

#[global] Instance outcome_eq_dec : EqDecision outcome.
Proof. solve_decision. Defined.

(** ** Dictionaries *)

(** [d.values()] on a Python 2 dict: a list holding a snapshot of the
    values. *)
Definition values {V : Type} (d : gmap string V) : list V :=
  (map_to_list d).*2.

(** [del d[k]]: [None] stands for the [KeyError] of a missing key. *)
Definition del {V : Type} (k : string) (d : gmap string V) : option (gmap string V) :=
  match d !! k with
  | Some _ => Some (delete k d)
  | None => None
  end.

(** The grouping loops of [refresh_agent_resources]:
    [if key not in d: d[key] = []] followed by [d[key].append(x)]. *)
Definition group_step {A : Type} (key : A → string)
    (d : gmap string (list A)) (x : A) : gmap string (list A) :=
  let d1 := match d !! key x with
            | None => <[key x := []]> d
            | Some _ => d
            end in
  match d1 !! key x with
  | Some l => <[key x := l ++ [x]]> d1
  | None => d1
  end.

Definition group_by {A : Type} (key : A → string) (xs : list A) : gmap string (list A) :=
  foldl (group_step key) ∅ xs.

(** [d[k] if k in d else []] *)
Definition get_or_empty {A : Type} (d : gmap string (list A)) (k : string) : list A :=
  match d !! k with
  | Some l => l
  | None => []
  end.

(** ** NodeResources *)

Module NodeResources.

(** Modelled from the spec: class [job.resources.NodeResources] is not
    among the sources.  A vector of the quantities cpus, mem and disk,
    with component-wise addition, subtraction clamped at zero, and a flat
    name-to-quantity report.  Quantities are integers here. *)
Record t : Type := mk { cpus : Z; mem : Z; disk : Z }.

(** Modelled from the spec: the empty vector. *)
Definition zero : t := mk 0 0 0.

(** Modelled from the spec: component-wise addition. *)
Definition add (a b : t) : t :=
  mk (cpus a + cpus b) (mem a + mem b) (disk a + disk b).

(** Modelled from the spec: subtraction, clamped at zero. *)
Definition subtract (a b : t) : t :=
  mk (Z.max 0 (cpus a - cpus b)) (Z.max 0 (mem a - mem b)) (Z.max 0 (disk a - disk b)).

(** Modelled from the spec: every quantity requested is available. *)
Definition is_satisfied_by (requested available : t) : bool :=
  (cpus requested <=? cpus available) && (mem requested <=? mem available)
  && (disk requested <=? disk available).

(** Modelled from the spec: component-wise minimum, for the low
    watermark. *)
Definition minimum (a b : t) : t :=
  mk (Z.min (cpus a) (cpus b)) (Z.min (mem a) (mem b)) (Z.min (disk a) (disk b)).

(** Modelled from the spec: component-wise maximum, for the high
    watermark. *)
Definition maximum (a b : t) : t :=
  mk (Z.max (cpus a) (cpus b)) (Z.max (mem a) (mem b)) (Z.max (disk a) (disk b)).

(** Modelled from the spec: the sum of a list of vectors. *)
Definition sum (l : list t) : t := foldr add zero l.

(** Modelled from the spec: the flat name-to-quantity report, written
    into [d]. *)
Definition generate_status_json (r : t) (d : gmap string Z) : gmap string Z :=
  <["disk" := disk r]> (<["mem" := mem r]> (<["cpus" := cpus r]> d)).

End NodeResources.

#[global] Instance NodeResources_eq_dec : EqDecision NodeResources.t.
Proof. solve_decision. Defined.

(** ** ResourceOffer and Task *)

Module ResourceOffer.

(** Modelled from the spec: class [scheduler.resources.offer.ResourceOffer]
    is not among the sources.  An offer is its id, the id of the agent
    that makes it, and the offered resources. *)
Record t : Type := mk { id : string; agent_id : string; resources : NodeResources.t }.

End ResourceOffer.

#[global] Instance ResourceOffer_eq_dec : EqDecision ResourceOffer.t.
Proof. solve_decision. Defined.

Module Task.

(** Modelled from the spec: class [job.tasks.base_task.Task] is not among
    the sources.  The scheduling view of a task: its id and its agent;
    the resources the task consumes, which the spec leaves to a lookup by
    a collaborator, are carried with it. *)
Record t : Type := mk { id : string; agent_id : string; resources : NodeResources.t }.

End Task.

#[global] Instance Task_eq_dec : EqDecision Task.t.
Proof. solve_decision. Defined.

(** ** AgentResources *)

Module AgentResources.

(** Modelled from the spec: class [scheduler.resources.agent.AgentResources]
    is not among the sources.  The ledger of one agent: the offers it
    currently holds (the offered-set), the running total, the rolling
    watermark window and the optional shortage. *)
Record t : Type := mk {
  agent_id : string;
  offers : list ResourceOffer.t;
  running : NodeResources.t;
  watermark_min : NodeResources.t;
  watermark_max : NodeResources.t;
  shortage : option NodeResources.t
}.

(** Modelled from the spec: [AgentResources(agent_id)], an empty ledger. *)
Definition new (agent_id : string) : t :=
  mk agent_id [] NodeResources.zero NodeResources.zero NodeResources.zero None.

(** Modelled from the spec: the offered total, the sum over the
    offered-set. *)
Definition offered (self : t) : NodeResources.t :=
  NodeResources.sum (ResourceOffer.resources <$> offers self).

(** Modelled from the spec: running + offered. *)
Definition total (self : t) : NodeResources.t :=
  NodeResources.add (running self) (offered self).

(** Modelled from the spec: a full replace of the offered-set and of the
    running total; the watermark window widens to include the new
    running + offered. *)
Definition refresh_resources (self : t) (the_offers : list ResourceOffer.t)
    (the_tasks : list Task.t) : t :=
  let run := NodeResources.sum (Task.resources <$> the_tasks) in
  let tot := NodeResources.add run (NodeResources.sum (ResourceOffer.resources <$> the_offers)) in
  mk (agent_id self) the_offers run
     (NodeResources.minimum (watermark_min self) tot)
     (NodeResources.maximum (watermark_max self) tot)
     (shortage self).

(** Modelled from the spec: the window restarts at the current
    running + offered. *)
Definition reset_watermark (self : t) : t :=
  mk (agent_id self) (offers self) (running self) (total self) (total self) (shortage self).

(** Modelled from the spec: the named offers leave the offered-set. *)
Definition remove_offers (self : t) (offer_ids : list string) : t :=
  mk (agent_id self)
     (filter (λ o, ResourceOffer.id o ∉ offer_ids) (offers self))
     (running self) (watermark_min self) (watermark_max self) (shortage self).

(** Modelled from the spec: sets or clears the shortage. *)
Definition set_shortage (self : t) (s : option NodeResources.t) : t :=
  mk (agent_id self) (offers self) (running self) (watermark_min self) (watermark_max self) s.

(** Modelled from the spec: the per-agent snapshot written into a node's
    entry of the status. *)
Record status : Type := mk_status {
  st_running : gmap string Z;
  st_offered : gmap string Z;
  st_watermark : gmap string Z
}.

(** Modelled from the spec: the three cluster totals handed to
    [generate_status_json]. *)
Record totals : Type := mk_totals {
  total_running : NodeResources.t;
  total_offered : NodeResources.t;
  total_watermark : NodeResources.t
}.

(** Modelled from the spec: writes the snapshot of this agent and adds its
    running, offered and high-water quantities to the cluster totals. *)
Definition generate_status_json (self : t) (tot : totals) : status * totals :=
  (mk_status (NodeResources.generate_status_json (running self) ∅)
             (NodeResources.generate_status_json (offered self) ∅)
             (NodeResources.generate_status_json (watermark_max self) ∅),
   mk_totals (NodeResources.add (total_running tot) (running self))
             (NodeResources.add (total_offered tot) (offered self))
             (NodeResources.add (total_watermark tot) (watermark_max self))).

End AgentResources.

(** ** ResourceManager *)

(** Amount of time between rolling watermark resets, in seconds. *)
Definition WATERMARK_RESET_PERIOD : Z := 5 * 60.

Module ResourceManager.

Record t : Type := mk {
  _agent_resources : gmap string AgentResources.t;  (* {Agent ID: AgentResources} *)
  _last_watermark_reset : option Z;                  (* None or a time in seconds *)
  _new_offers : gmap string ResourceOffer.t          (* {Offer ID: ResourceOffer} *)
}.

(** [ResourceManager()] *)
Definition init : t := mk ∅ None ∅.

Definition add_new_offers (self : t) (offers : list ResourceOffer.t) : t :=
  mk (_agent_resources self) (_last_watermark_reset self)
     (foldl (λ d offer, <[ResourceOffer.id offer := offer]> d) (_new_offers self) offers).

(** The first loop of [lost_agent], over the snapshot [vals] of the
    pending offers. *)
Fixpoint lost_agent_offers (agent_id : string) (vals : list ResourceOffer.t)
    (d : gmap string ResourceOffer.t) : gmap string ResourceOffer.t * outcome :=
  match vals with
  | [] => (d, Returned)
  | offer :: rest =>
      if decide (ResourceOffer.agent_id offer = agent_id) then
        match del (ResourceOffer.id offer) d with
        | Some d' => lost_agent_offers agent_id rest d'
        | None => (d, Raised KeyError)
        end
      else lost_agent_offers agent_id rest d
  end.

Definition lost_agent (self : t) (agent_id : string) : t * outcome :=
  match lost_agent_offers agent_id (values (_new_offers self)) (_new_offers self) with
  | (d, Raised e) => (mk (_agent_resources self) (_last_watermark_reset self) d, Raised e)
  | (d, Returned) =>
      let agents :=
        match _agent_resources self !! agent_id with
        | Some _ => delete agent_id (_agent_resources self)
        | None => _agent_resources self
        end in
      (mk agents (_last_watermark_reset self) d, Returned)
  end.

(** "Create any new agents if this is their first offer" *)
Definition create_agents (agents : gmap string AgentResources.t)
    (vals : list ResourceOffer.t) : gmap string AgentResources.t :=
  foldl (λ d offer,
           match d !! ResourceOffer.agent_id offer with
           | None => <[ResourceOffer.agent_id offer := AgentResources.new (ResourceOffer.agent_id offer)]> d
           | Some _ => d
           end) agents vals.

(** "Refresh agents": the body of the loop, for one agent. *)
Definition refresh_agent (agent_offers : gmap string (list ResourceOffer.t))
    (agent_tasks : gmap string (list Task.t)) (agent_resources : AgentResources.t)
    : AgentResources.t :=
  let the_offers := get_or_empty agent_offers (AgentResources.agent_id agent_resources) in
  let the_tasks := get_or_empty agent_tasks (AgentResources.agent_id agent_resources) in
  AgentResources.refresh_resources agent_resources the_offers the_tasks.

(** [when] is the reading of [now()]. *)
Definition refresh_agent_resources (self : t) (tasks : list Task.t) (when : Z) : t * outcome :=
  let new_offers := _new_offers self in
  let agent_offers := group_by ResourceOffer.agent_id (values new_offers) in
  let agent_tasks := group_by Task.agent_id tasks in
  let created := create_agents (_agent_resources self) (values new_offers) in
  let refreshed := refresh_agent agent_offers agent_tasks <$> created in
  match _last_watermark_reset self with
  | None =>
      (* None + WATERMARK_RESET_PERIOD *)
      (mk refreshed None ∅, Raised TypeError)
  | Some last =>
      if when >? last + WATERMARK_RESET_PERIOD then
        (mk (AgentResources.reset_watermark <$> refreshed) (Some when) ∅, Returned)
      else
        (mk refreshed (Some last) ∅, Returned)
  end.

Definition remove_offers (self : t) (offer_ids : list string) : t :=
  mk ((λ agent_resources, AgentResources.remove_offers agent_resources offer_ids)
        <$> _agent_resources self)
     (_last_watermark_reset self)
     (foldl (λ d offer_id,
               match d !! offer_id with
               | Some _ => delete offer_id d
               | None => d
               end) (_new_offers self) offer_ids).

Definition set_agent_shortages (self : t) (agent_shortages : gmap string NodeResources.t) : t :=
  mk ((λ agent_resources,
         AgentResources.set_shortage agent_resources
           (agent_shortages !! AgentResources.agent_id agent_resources))
        <$> _agent_resources self)
     (_last_watermark_reset self) (_new_offers self).

(** One entry of [status_dict['nodes']]: the agent id it names and the
    snapshot an agent writes into it. *)
Record node_dict : Type := mk_node {
  nd_agent_id : string;
  nd_resources : option AgentResources.status
}.

(** [status_dict['resources']] *)
Record resources_dict : Type := mk_resources {
  rd_running : gmap string Z;
  rd_offered : gmap string Z;
  rd_watermark : gmap string Z
}.

Record status_dict : Type := mk_status_dict {
  sd_nodes : list node_dict;
  sd_resources : option resources_dict
}.

(** The loop over [status_dict['nodes']]. *)
Fixpoint status_nodes (agents : gmap string AgentResources.t) (nodes : list node_dict)
    (tot : AgentResources.totals) : list node_dict * AgentResources.totals :=
  match nodes with
  | [] => ([], tot)
  | node :: rest =>
      match agents !! nd_agent_id node with
      | Some agent_resources =>
          let '(st, tot1) := AgentResources.generate_status_json agent_resources tot in
          let '(rest', tot2) := status_nodes agents rest tot1 in
          (mk_node (nd_agent_id node) (Some st) :: rest', tot2)
      | None =>
          let '(rest', tot2) := status_nodes agents rest tot in
          (node :: rest', tot2)
      end
  end.

Definition generate_status_json (self : t) (status : status_dict) : status_dict :=
  let zero := AgentResources.mk_totals NodeResources.zero NodeResources.zero NodeResources.zero in
  let '(nodes, tot) := status_nodes (_agent_resources self) (sd_nodes status) zero in
  mk_status_dict nodes
    (Some (mk_resources
             (NodeResources.generate_status_json (AgentResources.total_running tot) ∅)
             (NodeResources.generate_status_json (AgentResources.total_offered tot) ∅)
             (NodeResources.generate_status_json (AgentResources.total_watermark tot) ∅))).

End ResourceManager.

(** ** ScaleScheduler *)

Module ScaleScheduler.

(** [mesos_pb2] task states. *)
Inductive TaskState : Type :=
| TASK_STAGING | TASK_STARTING | TASK_RUNNING | TASK_FINISHED
| TASK_FAILED | TASK_KILLED | TASK_LOST | TASK_ERROR.

(** A Mesos task status, as the callback reads it: [status.task_id.value],
    [status.state], and what [utils.parse_exit_code] and
    [utils.get_status_timestamp] extract from it. *)
Record Status : Type := mk_status {
  task_id : string;
  state : TaskState;
  exit_code : option Z;
  timestamp : Z
}.

(** [TaskResults(task_id)] with its [exit_code] and [when] attributes. *)
Record TaskResults : Type := mk_results {
  r_task_id : string;
  r_exit_code : option Z;
  r_when : Z
}.

(** An [error.models.Error], identified by its name. *)
Record Error : Type := mk_error { error_name : string }.

(** Modelled from the spec: [Error.objects.get_builtin_error(name)]. *)
Definition get_builtin_error (name : string) : Error := mk_error name.

(** A node of the node registry. *)
Record Node : Type := mk_node { node_id : Z; hostname : string }.

(** A Mesos offer: [offer.id.value], [offer.slave_id.value] and the list
    of named scalar resources. *)
Record Resource : Type := mk_resource { name : string; scalar_value : Z }.
Record Offer : Type := mk_offer {
  offer_id : string;
  slave_id : string;
  offer_resources : list Resource
}.

(** A value or an exception. *)
Inductive result (A : Type) : Type :=
| Ok (a : A)
| Err (e : exn).
Arguments Ok {A} a.
Arguments Err {A} e.

(** The calls the scheduler makes on its collaborators, in the order it
    makes them.  An execution is named by its key in the registry. *)
Inductive call : Type :=
| recon_remove_task_id (task_id : string)
| recon_add_task_ids (task_ids : list string)
| cleanup_handle_task_update (status : Status)
| cleanup_add_job_execution (job_exe_id : Z)
| task_update_add_status_update (status : Status)
| running_get_job_exe (job_exe_id : Z)
| running_get_job_exes_on_node (node_id : Z)
| running_remove_job_exe (job_exe_id : Z)
| exe_task_start (job_exe_id : Z) (task_id : string) (when : Z)
| exe_task_complete (job_exe_id : Z) (results : TaskResults)
| exe_task_lost (job_exe_id : Z) (task_id : string)
| exe_task_fail (job_exe_id : Z) (results : TaskResults)
| exe_execution_lost (job_exe_id : Z) (when : Z)
| queue_handle_job_failure (job_exe_id : Z) (when : Z) (context : list string) (error : Error)
| node_register_agent_ids (agent_ids : list string)
| node_lost_node (agent_id : string)
| offer_add_new_offers (offers : list ResourceOffer.t)
| offer_remove_offers (offer_ids : list string)
| offer_lost_node (agent_id : string).

(** The collaborators whose code is not among the sources, as an
    interface.  [E] is the class of running job executions; a method that
    mutates the execution returns the execution as it leaves it and
    whether it raised. *)
Class Collaborators (E : Type) : Type := {
  (* job.execution.running.tasks.cleanup_task *)
  CLEANUP_TASK_ID_PREFIX : string;
  (* JobExecution.get_job_exe_id(task_id) *)
  get_job_exe_id : string → result Z;
  (* RunningJobExecution *)
  exe_id : E → Z;
  exe_node_id : E → Z;
  current_task : E → option string;
  is_finished : E → bool;
  task_start : E → string → Z → E * outcome;
  task_complete : E → TaskResults → E * outcome;
  task_lost : E → string → E * outcome;
  task_fail : E → TaskResults → E * outcome;
  execution_lost : E → Z → E * outcome;
  (* whether running_job_mgr.get_job_exe(job_exe_id) raises *)
  get_job_exe_raises : Z → option exn;
  (* whether Queue.objects.handle_job_failure(job_exe_id, ...) raises *)
  handle_job_failure_raises : Z → option exn
}.

Section Scheduler.

Context {E : Type} `{!Collaborators E}.

(** Modelled from the spec: the managers the callbacks work on, which are
    not among the sources.  The reconciliation set of [recon_mgr], the
    registry of [running_job_mgr] ({job_exe_id: execution}), the
    executions handed to [cleanup_mgr], the nodes of [node_mgr] by agent
    id, and the calls made so far.  [recon_mgr] is a set of task ids with
    [add_task_ids] and [remove_task_id]; the registry looks executions up
    by id and by node and removes them by id; [node_mgr.lost_node]
    removes the node. *)
Record t : Type := mk {
  recon : gset string;
  running : gmap Z E;
  cleanup : list E;
  nodes : gmap string Node;
  calls : list call
}.

Definition log (c : call) (s : t) : t :=
  mk (recon s) (running s) (cleanup s) (nodes s) (calls s ++ [c]).

(** Modelled from the spec: [recon_mgr.remove_task_id(task_id)]. *)
Definition remove_task_id (task_id : string) (s : t) : t :=
  log (recon_remove_task_id task_id)
      (mk (recon s ∖ {[task_id]}) (running s) (cleanup s) (nodes s) (calls s)).

(** Modelled from the spec: [recon_mgr.add_task_ids(task_ids)]. *)
Definition add_task_ids (task_ids : list string) (s : t) : t :=
  log (recon_add_task_ids task_ids)
      (mk (recon s ∪ list_to_set task_ids) (running s) (cleanup s) (nodes s) (calls s)).

(** An execution of the registry mutated in place: the registry holds the
    same object. *)
Definition mutate (job_exe_id : Z) (exe : E) (s : t) : t :=
  mk (recon s) (alter (λ _, exe) job_exe_id (running s)) (cleanup s) (nodes s) (calls s).

(** Modelled from the spec: [running_job_mgr.remove_job_exe(job_exe_id)]. *)
Definition remove_job_exe (job_exe_id : Z) (s : t) : t :=
  log (running_remove_job_exe job_exe_id)
      (mk (recon s) (delete job_exe_id (running s)) (cleanup s) (nodes s) (calls s)).

(** Modelled from the spec: [cleanup_mgr.add_job_execution(running_job_exe)]. *)
Definition add_job_execution (exe : E) (s : t) : t :=
  log (cleanup_add_job_execution (exe_id exe))
      (mk (recon s) (running s) (cleanup s ++ [exe]) (nodes s) (calls s)).

(** Modelled from the spec: [node_mgr.lost_node(agent_id)]. *)
Definition lost_node (agent_id : string) (s : t) : t :=
  log (node_lost_node agent_id)
      (mk (recon s) (running s) (cleanup s) (delete agent_id (nodes s)) (calls s)).

(** Modelled from the spec: [running_job_mgr.get_job_exes_on_node(node_id)],
    the executions of the registry on that node, each with its key. *)
Definition get_job_exes_on_node (s : t) (nid : Z) : list (Z * E) :=
  filter (λ p, exe_node_id p.2 = nid) (map_to_list (running s)).

(** Modelled from the spec: [Queue.objects.handle_job_failure(job_exe_id,
    when, [], error)], which records the failure or raises. *)
Definition handle_job_failure (job_exe_id when : Z) (context : list string) (error : Error)
    (s : t) : t * outcome :=
  (log (queue_handle_job_failure job_exe_id when context error) s,
   match handle_job_failure_raises job_exe_id with
   | Some e => Raised e
   | None => Returned
   end).

(** "Remove finished job execution" *)
Definition remove_if_finished (job_exe_id : Z) (exe : E) (s : t) : t :=
  if is_finished exe then add_job_execution exe (remove_job_exe job_exe_id s) else s.

(** "Apply status update to running job execution" *)
Definition apply_status_update (job_exe_id : Z) (exe : E) (status : Status)
    (results : TaskResults) (s : t) : t * E * outcome :=
  match state status with
  | TASK_RUNNING =>
      let '(exe', out) := task_start exe (task_id status) (r_when results) in
      (log (exe_task_start job_exe_id (task_id status) (r_when results)) s, exe', out)
  | TASK_FINISHED =>
      let results :=
        match r_exit_code results with
        | None => mk_results (r_task_id results) (Some 0) (r_when results)
        | Some _ => results
        end in
      let '(exe', out) := task_complete exe results in
      (log (exe_task_complete job_exe_id results) s, exe', out)
  | TASK_LOST =>
      let '(exe', out) := task_lost exe (task_id status) in
      (log (exe_task_lost job_exe_id (task_id status)) s, exe', out)
  | TASK_ERROR | TASK_FAILED | TASK_KILLED =>
      let '(exe', out) := task_fail exe results in
      (log (exe_task_fail job_exe_id results) s, exe', out)
  | TASK_STAGING | TASK_STARTING => (s, exe, Returned)
  end.

(** The body of the [try] of [statusUpdate]. *)
Definition statusUpdate_try (status : Status) (job_exe_id now : Z) (s : t) : t * outcome :=
  let s := log (running_get_job_exe job_exe_id) s in
  match get_job_exe_raises job_exe_id with
  | Some e => (s, Raised e)
  | None =>
      match running s !! job_exe_id with
      | Some running_job_exe =>
          let results :=
            mk_results (task_id status) (exit_code status) (timestamp status) in
          let '(s, exe', out) := apply_status_update job_exe_id running_job_exe status results s in
          let s := mutate job_exe_id exe' s in
          match out with
          | Raised e => (s, Raised e)
          | Returned => (remove_if_finished job_exe_id exe' s, Returned)
          end
      | None =>
          (* Scheduler doesn't have any knowledge of this job execution *)
          handle_job_failure job_exe_id now [] (get_builtin_error "scheduler-lost") s
      end
  end.

(** [now] is the reading of [now()] handed to [handle_job_failure]. *)
Definition statusUpdate (s : t) (status : Status) (now : Z) : t * outcome :=
  (* Since we have a status update for this task, remove it from reconciliation set *)
  let s := remove_task_id (task_id status) s in
  if String.prefix CLEANUP_TASK_ID_PREFIX (task_id status) then
    (log (cleanup_handle_task_update status) s, Returned)
  else
    let s := log (task_update_add_status_update status) s in
    match get_job_exe_id (task_id status) with
    | Err e => (s, Raised e)
    | Ok job_exe_id =>
        match statusUpdate_try status job_exe_id now s with
        | (s, Raised _) =>
            (* Error handling status update, add task so it can be reconciled *)
            (add_task_ids [task_id status] s, Returned)
        | (s, Returned) => (s, Returned)
        end
    end.

(** The body of the loop of [slaveLost], for one execution that was
    running on the lost node. *)
Definition slaveLost_exe (key : Z) (running_job_exe : E) (started : Z) (s : t) : t * outcome :=
  let '(exe', out) := execution_lost running_job_exe started in
  let s := mutate key exe' (log (exe_execution_lost key started) s) in
  let remove_finished (s : t) : t :=
    if is_finished exe'
    then add_job_execution exe' (remove_job_exe (exe_id exe') s)
    else s in
  match out with
  | Returned => (remove_finished s, Returned)
  | Raised DatabaseError =>
      (* Error failing execution, add task so it can be reconciled *)
      (remove_finished (match current_task exe' with
                        | Some task => add_task_ids [task] s
                        | None => s
                        end), Returned)
  | Raised e => (s, Raised e)
  end.

(** The loop of [slaveLost]: an exception that the body does not catch
    ends it. *)
Fixpoint slaveLost_loop (exes : list (Z * E)) (started : Z) (s : t) : t * outcome :=
  match exes with
  | [] => (s, Returned)
  | (key, running_job_exe) :: rest =>
      match slaveLost_exe key running_job_exe started s with
      | (s, Returned) => slaveLost_loop rest started s
      | (s, Raised e) => (s, Raised e)
      end
  end.

Definition slaveLost (s : t) (agent_id : string) (started : Z) : t * outcome :=
  let node := nodes s !! agent_id in
  let s := log (offer_lost_node agent_id) (lost_node agent_id s) in
  (* Fail job executions that were running on the lost node *)
  match node with
  | Some node =>
      slaveLost_loop (get_job_exes_on_node s (node_id node)) started
        (log (running_get_job_exes_on_node (node_id node)) s)
  | None => (s, Returned)
  end.

(** The loop of [_reconcile_running_jobs] over the ids of the executions
    the database has as running; [task_ids] is the list built so far. *)
Fixpoint reconcile_loop (job_exes : list Z) (now : Z) (task_ids : list string) (s : t)
    : t * list string * outcome :=
  match job_exes with
  | [] => (s, task_ids, Returned)
  | job_exe_id :: rest =>
      let s := log (running_get_job_exe job_exe_id) s in
      match get_job_exe_raises job_exe_id with
      | Some e => (s, task_ids, Raised e)
      | None =>
          match running s !! job_exe_id with
          | Some running_job_exe =>
              reconcile_loop rest now
                (match current_task running_job_exe with
                 | Some task => task_ids ++ [task]
                 | None => task_ids
                 end) s
          | None =>
              (* Fail any executions that the scheduler has lost *)
              match handle_job_failure job_exe_id now [] (get_builtin_error "scheduler-lost") s with
              | (s, Raised e) => (s, task_ids, Raised e)
              | (s, Returned) => reconcile_loop rest now task_ids s
              end
          end
      end
  end.

Definition _reconcile_running_jobs (s : t) (job_exes : list Z) (now : Z) : t * outcome :=
  match reconcile_loop job_exes now [] s with
  | (s, _, Raised e) => (s, Raised e)
  | (s, task_ids, Returned) => (add_task_ids task_ids s, Returned)
  end.

(** The resources of one offer: the last scalar of each name, zero for a
    name that is missing. *)
Definition node_resources_of (resources : list Resource) : NodeResources.t :=
  let '(disk, mem, cpus) :=
    foldl (λ '(disk, mem, cpus) resource,
             if decide (name resource = "disk") then (scalar_value resource, mem, cpus)
             else if decide (name resource = "mem") then (disk, scalar_value resource, cpus)
             else if decide (name resource = "cpus") then (disk, mem, scalar_value resource)
             else (disk, mem, cpus))
          (0, 0, 0) resources in
  NodeResources.mk cpus mem disk.

Definition resourceOffers (s : t) (offers : list Offer) : t :=
  let agent_ids := slave_id <$> offers in
  let resource_offers :=
    (λ offer, ResourceOffer.mk (offer_id offer) (slave_id offer)
                                (node_resources_of (offer_resources offer))) <$> offers in
  log (offer_add_new_offers resource_offers) (log (node_register_agent_ids agent_ids) s).

Definition offerRescinded (s : t) (offer_id : string) : t :=
  log (offer_remove_offers [offer_id]) s.

(** The callbacks of the Mesos scheduler interface, with the readings of
    the clock and of the database they use.  [registered] and
    [reregistered] end with [_reconcile_running_jobs]; what they do before
    it (the driver handle, the database syncs, the background threads)
    touches none of the managers of [t].  [disconnected],
    [frameworkMessage], [executorLost] and [error] only write to the
    log file. *)
Inductive callback : Type :=
| registered (job_exes : list Z) (now : Z)
| reregistered (job_exes : list Z) (now : Z)
| disconnected
| resourceOffers_cb (offers : list Offer)
| offerRescinded_cb (offer_id : string)
| statusUpdate_cb (status : Status) (now : Z)
| frameworkMessage (executor_id slave_id message : string)
| slaveLost_cb (agent_id : string) (started : Z)
| executorLost (executor_id slave_id : string)
| error (message : string).

Definition run (s : t) (cb : callback) : t * outcome :=
  match cb with
  | registered job_exes now => _reconcile_running_jobs s job_exes now
  | reregistered job_exes now => _reconcile_running_jobs s job_exes now
  | disconnected => (s, Returned)
  | resourceOffers_cb offers => (resourceOffers s offers, Returned)
  | offerRescinded_cb offer_id => (offerRescinded s offer_id, Returned)
  | statusUpdate_cb status now => statusUpdate s status now
  | frameworkMessage _ _ _ => (s, Returned)
  | slaveLost_cb agent_id started => slaveLost s agent_id started
  | executorLost _ _ => (s, Returned)
  | error _ => (s, Returned)
  end.

End Scheduler.

Arguments t : clear implicits.

End ScaleScheduler.

(** ** JobTypeManager *)

(** [d.values()] of a dict with integer keys. *)
Definition int_values {V : Type} (d : gmap Z V) : list V :=
  (map_to_list d).*2.

Module JobType.

(** Modelled from the spec: a job type of the cache; class
    [job.models.JobType] is not among the sources.  The attributes are
    those the manager reads. *)
Record t : Type := mk {
  id : Z;
  name : string;
  version : string;
  title : option string;
  description : option string;
  is_system : bool;
  icon_code : option string
}.

End JobType.

Module JobTypeManager.

Record t : Type := mk {
  _job_types : gmap Z JobType.t  (* {Job Type ID: Job Type} *)
}.

(** [JobTypeManager()] *)
Definition init : t := mk ∅.

(** One entry of [status_dict['job_types']]. *)
Record job_type_dict : Type := mk_dict {
  d_id : Z;
  d_name : string;
  d_version : string;
  d_title : option string;
  d_description : option string;
  d_is_system : bool;
  d_icon_code : option string
}.

Definition job_type_dict_of (job_type : JobType.t) : job_type_dict :=
  mk_dict (JobType.id job_type) (JobType.name job_type) (JobType.version job_type)
          (JobType.title job_type) (JobType.description job_type)
          (JobType.is_system job_type) (JobType.icon_code job_type).

(** [status_dict] is the part of the status JSON whose values are lists
    of job type entries. *)
Definition generate_status_json (self : t) (status_dict : gmap string (list job_type_dict))
    : gmap string (list job_type_dict) :=
  <["job_types" := job_type_dict_of <$> int_values (_job_types self)]> status_dict.

Definition get_job_type (self : t) (job_type_id : Z) : option JobType.t :=
  _job_types self !! job_type_id.

(** [dict(self._job_types)] *)
Definition get_job_types (self : t) : gmap Z JobType.t :=
  _job_types self.

(** [rows] is what iterating [JobType.objects.all().iterator()] gives: the
    job types of the database, or the exception of the query. *)
Definition sync_with_database (self : t) (rows : ScaleScheduler.result (list JobType.t))
    : t * outcome :=
  match rows with
  | ScaleScheduler.Err e => (self, Raised e)
  | ScaleScheduler.Ok rows =>
      let updated_job_types :=
        foldl (λ d job_type, <[JobType.id job_type := job_type]> d) ∅ rows in
      (mk updated_job_types, Returned)
  end.

End JobTypeManager.

(** ** The life cycle of the scheduler *)

Module Lifecycle.

(** What ends a callback early: an attribute looked up on [None], or an
    exception of a collaborator. *)
Inductive error : Type :=
| AttributeError
| Propagated (e : exn).

(** A value or an error. *)
Inductive res (A : Type) : Type :=
| Done (a : A)
| Failed (e : error).
Arguments Done {A} a.
Arguments Failed {A} e.

(** The names of the four attributes of the scheduler that hold its
    background threads. *)
Inductive thread_attr : Type :=
| db_sync_thread | recon_thread | scheduling_thread | status_thread.

(** Modelled from the spec: a background worker ([DatabaseSyncThread],
    [ReconciliationThread], [SchedulingThread], [StatusUpdateThread]; none
    is among the sources), with the driver and the framework id it was
    built with, if any. *)
Record Thread : Type := mk_thread {
  driver : option Z;
  framework_id : option string
}.

(** The calls of the life cycle on the surroundings of the scheduler, in
    the order they are made.  Of the code they reach only
    [job_type_mgr.sync_with_database] is among the sources. *)
Inductive event : Type :=
| initialize_system
| Scheduler_update_master (hostname : string) (port : Z)
| scheduler_mgr_update_from_mesos (framework_id : option string) (hostname : string) (port : Z)
| job_type_mgr_sync_with_database
| scheduler_mgr_sync_with_database
| workspace_mgr_sync_with_database
| thread_start (target : thread_attr)
| thread_shutdown (target : thread_attr).

#[global] Instance thread_attr_eq_dec : EqDecision thread_attr.
Proof. solve_decision. Defined.
#[global] Instance event_eq_dec : EqDecision event.
Proof. solve_decision. Defined.

(** Whether a call on code that is not among the sources raises; the
    sync of the job types raises when its query does. *)
Class Environment : Type := {
  raises : event → option exn
}.

(** The attributes of a [ScaleScheduler]. *)
Record attrs : Type := mk_attrs {
  _driver : option Z;
  _framework_id : option string;
  _master_hostname : option string;
  _master_port : option Z;
  _db_sync_thread : option Thread;
  _recon_thread : option Thread;
  _scheduling_thread : option Thread;
  _status_thread : option Thread
}.

(** [ScaleScheduler()] *)
Definition init_attrs : attrs := mk_attrs None None None None None None None None.

(** [getattr(self, target)] *)
Definition get_thread (a : attrs) (target : thread_attr) : option Thread :=
  match target with
  | db_sync_thread => _db_sync_thread a
  | recon_thread => _recon_thread a
  | scheduling_thread => _scheduling_thread a
  | status_thread => _status_thread a
  end.

(** [setattr(self, target, th)] *)
Definition set_thread (a : attrs) (target : thread_attr) (th : Thread) : attrs :=
  match target with
  | db_sync_thread =>
      mk_attrs (_driver a) (_framework_id a) (_master_hostname a) (_master_port a)
               (Some th) (_recon_thread a) (_scheduling_thread a) (_status_thread a)
  | recon_thread =>
      mk_attrs (_driver a) (_framework_id a) (_master_hostname a) (_master_port a)
               (_db_sync_thread a) (Some th) (_scheduling_thread a) (_status_thread a)
  | scheduling_thread =>
      mk_attrs (_driver a) (_framework_id a) (_master_hostname a) (_master_port a)
               (_db_sync_thread a) (_recon_thread a) (Some th) (_status_thread a)
  | status_thread =>
      mk_attrs (_driver a) (_framework_id a) (_master_hostname a) (_master_port a)
               (_db_sync_thread a) (_recon_thread a) (_scheduling_thread a) (Some th)
  end.

(** The assignments of the master: [self._driver], [self._master_hostname]
    and [self._master_port], and [self._framework_id] when one is given. *)
Definition set_master (a : attrs) (driver : Z) (frameworkId : option string)
    (hostname : string) (port : Z) : attrs :=
  mk_attrs (Some driver)
           (match frameworkId with Some f => Some f | None => _framework_id a end)
           (Some hostname) (Some port)
           (_db_sync_thread a) (_recon_thread a) (_scheduling_thread a) (_status_thread a).

Section Lifecycle.

Context {E : Type} `{!ScaleScheduler.Collaborators E} `{!Environment}.

(** The scheduler object and the module-level managers it works on:
    [recon_mgr.driver], [job_type_mgr], the managers of the callbacks, and
    the calls made so far. *)
Record t : Type := mk {
  self : attrs;
  recon_mgr_driver : option Z;
  job_type_mgr : JobTypeManager.t;
  managers : ScaleScheduler.t E;
  events : list event
}.

(** A method of the scheduler: it changes the state and returns or
    fails. *)
Definition M (A : Type) : Type := t → t * res A.

#[local] Instance M_ret : MRet M := λ A a s, (s, Done a).

#[local] Instance M_bind : MBind M := λ A B f m s,
  match m s with
  | (s', Done a) => f a s'
  | (s', Failed e) => (s', Failed e)
  end.

Definition modify (f : t → t) : M () := λ s, (f s, Done ()).

(** A call on code that is not among the sources. *)
Definition call (ev : event) : M () := λ s,
  (mk (self s) (recon_mgr_driver s) (job_type_mgr s) (managers s) (events s ++ [ev]),
   match raises ev with
   | Some e => Failed (Propagated e)
   | None => Done ()
   end).

(** [self.<target>], for an attribute access or a method call on it. *)
Definition thread (target : thread_attr) : M Thread := λ s,
  match get_thread (self s) target with
  | Some th => (s, Done th)
  | None => (s, Failed AttributeError)
  end.

Definition set_self (f : attrs → attrs) : M () :=
  modify (λ s, mk (f (self s)) (recon_mgr_driver s) (job_type_mgr s) (managers s) (events s)).

(** [self.<target> = th] *)
Definition assign (target : thread_attr) (th : Thread) : M () :=
  set_self (λ a, set_thread a target th).

(** [recon_mgr.driver = driver] *)
Definition set_recon_mgr_driver (driver : option Z) : M () :=
  modify (λ s, mk (self s) driver (job_type_mgr s) (managers s) (events s)).

(** [job_type_mgr.sync_with_database()] *)
Definition sync_job_types (rows : ScaleScheduler.result (list JobType.t)) : M () := λ s,
  let '(mgr, out) := JobTypeManager.sync_with_database (job_type_mgr s) rows in
  (mk (self s) (recon_mgr_driver s) mgr (managers s)
      (events s ++ [job_type_mgr_sync_with_database]),
   match out with
   | Raised e => Failed (Propagated e)
   | Returned => Done ()
   end).

(** [self._reconcile_running_jobs()] *)
Definition _reconcile_running_jobs (job_exes : list Z) (now : Z) : M () := λ s,
  let '(mgrs, out) := ScaleScheduler._reconcile_running_jobs (managers s) job_exes now in
  (mk (self s) (recon_mgr_driver s) (job_type_mgr s) mgrs (events s),
   match out with
   | Raised e => Failed (Propagated e)
   | Returned => Done ()
   end).

(** [threading.Thread(target=self.<target>.run)], made a daemon and
    started. *)
Definition start (target : thread_attr) : M () := call (thread_start target).

(** [driver] and [frameworkId] are the handle and the id Mesos passes,
    [hostname] and [port] those of [masterInfo]; [job_types], [job_exes]
    and [now] are the readings of the database and of the clock. *)
Definition registered (driver : Z) (frameworkId : string) (hostname : string) (port : Z)
    (job_types : ScaleScheduler.result (list JobType.t)) (job_exes : list Z) (now : Z) : M () :=
  set_self (λ a, set_master a driver (Some frameworkId) hostname port);;
  call initialize_system;;
  call (Scheduler_update_master hostname port);;
  call (scheduler_mgr_update_from_mesos (Some frameworkId) hostname port);;
  set_recon_mgr_driver (Some driver);;
  (* Initial database sync *)
  sync_job_types job_types;;
  call scheduler_mgr_sync_with_database;;
  call workspace_mgr_sync_with_database;;
  (* Start up background threads *)
  assign db_sync_thread (mk_thread (Some driver) None);;
  start db_sync_thread;;
  assign recon_thread (mk_thread None None);;
  start recon_thread;;
  assign scheduling_thread (mk_thread (Some driver) (Some frameworkId));;
  start scheduling_thread;;
  assign status_thread (mk_thread None None);;
  start status_thread;;
  _reconcile_running_jobs job_exes now.

Definition reregistered (driver : Z) (hostname : string) (port : Z)
    (job_exes : list Z) (now : Z) : M () :=
  set_self (λ a, set_master a driver None hostname port);;
  call (Scheduler_update_master hostname port);;
  call (scheduler_mgr_update_from_mesos None hostname port);;
  (* Update driver for background threads *)
  th ← thread db_sync_thread;
  assign db_sync_thread (mk_thread (Some driver) (framework_id th));;
  set_recon_mgr_driver (Some driver);;
  th ← thread scheduling_thread;
  assign scheduling_thread (mk_thread (Some driver) (framework_id th));;
  _reconcile_running_jobs job_exes now.

(** [self.<target>.shutdown()] *)
Definition shutdown_thread (target : thread_attr) : M () :=
  thread target;; call (thread_shutdown target).

Definition shutdown : M () :=
  shutdown_thread db_sync_thread;;
  shutdown_thread recon_thread;;
  shutdown_thread scheduling_thread;;
  shutdown_thread status_thread.

(** A scheduler that has just been constructed, beside managers [mgrs]. *)
Definition init (job_types : JobTypeManager.t) (mgrs : ScaleScheduler.t E) : t :=
  mk init_attrs None job_types mgrs [].

End Lifecycle.

Arguments t : clear implicits.
Arguments M : clear implicits.

End Lifecycle.

(** * Specification *)

(** ** The invariant of the resource manager *)

(** Every pending offer is stored under its own id and every agent ledger
    under its own agent id. *)
Definition wf (m : ResourceManager.t) : Prop :=
  map_Forall (λ k o, ResourceOffer.id o = k) (ResourceManager._new_offers m)
  ∧ map_Forall (λ k a, AgentResources.agent_id a = k) (ResourceManager._agent_resources m).

#[global] Instance wf_dec m : Decision (wf m).
Proof. unfold wf. apply _. Defined.

(** The managers the program can build: [ResourceManager()] and what its
    methods make of it, whether or not they raise. *)
Inductive reachable : ResourceManager.t → Prop :=
| reach_init : reachable ResourceManager.init
| reach_add_new_offers m offers :
    reachable m → reachable (ResourceManager.add_new_offers m offers)
| reach_lost_agent m agent_id :
    reachable m → reachable (ResourceManager.lost_agent m agent_id).1
| reach_refresh m tasks when :
    reachable m → reachable (ResourceManager.refresh_agent_resources m tasks when).1
| reach_remove_offers m offer_ids :
    reachable m → reachable (ResourceManager.remove_offers m offer_ids)
| reach_set_agent_shortages m shortages :
    reachable m → reachable (ResourceManager.set_agent_shortages m shortages).

(** ** Scenarios of the resource manager *)

(** The fixture of the scenario: offer [o1] of agent [a1]. *)
Definition o1 : ResourceOffer.t := ResourceOffer.mk "o1" "a1" (NodeResources.mk 4 1024 0).

(** The fixture of a task of agent [a1] and of one of agent [a2]. *)
Definition t1 : Task.t := Task.mk "t1" "a1" (NodeResources.mk 2 512 0).
Definition t2 : Task.t := Task.mk "t2" "a2" (NodeResources.mk 1 256 0).

(** ** Observations on the calls of the scheduler *)

Module SchedulerSpec.
Import ScaleScheduler.

(** The calls a callback adds to the trace. *)
Definition new_calls {E : Type} (s s' : t E) : list call :=
  drop (length (calls s)) (calls s').

Definition is_recon_remove (c : call) : Prop :=
  match c with recon_remove_task_id _ => True | _ => False end.

Definition is_handle_job_failure (c : call) : Prop :=
  match c with queue_handle_job_failure _ _ _ _ => True | _ => False end.

Definition is_task_complete (c : call) : Prop :=
  match c with exe_task_complete _ _ => True | _ => False end.

Definition is_execution_lost (c : call) : Prop :=
  match c with exe_execution_lost _ _ => True | _ => False end.

#[global] Instance is_recon_remove_dec c : Decision (is_recon_remove c).
Proof. destruct c; apply _. Defined.
#[global] Instance is_handle_job_failure_dec c : Decision (is_handle_job_failure c).
Proof. destruct c; apply _. Defined.
#[global] Instance is_task_complete_dec c : Decision (is_task_complete c).
Proof. destruct c; apply _. Defined.
#[global] Instance is_execution_lost_dec c : Decision (is_execution_lost c).
Proof. destruct c; apply _. Defined.

Section Spec.
Context {E : Type} `{!Collaborators E}.

(** The executions the registry reports for the node of a lost agent: it
    is asked by node id, so only when the node registry knows the agent. *)
Definition executions_on_lost_node (s : t E) (agent_id : string) : list (Z * E) :=
  match nodes s !! agent_id with
  | Some node => get_job_exes_on_node s (node_id node)
  | None => []
  end.

(** The task id [slaveLost] hands to reconciliation for one execution:
    the current task of the execution, if any, when [execution_lost]
    raised [DatabaseError]. *)
Definition task_to_reconcile (started : Z) (p : Z * E) : option string :=
  match execution_lost p.2 started with
  | (exe', Raised DatabaseError) => current_task exe'
  | _ => None
  end.

(** [execution_lost] returns or fails on the database. *)
Definition lost_or_database_error (started : Z) (p : Z * E) : Prop :=
  (execution_lost p.2 started).2 = Returned
  ∨ (execution_lost p.2 started).2 = Raised DatabaseError.

#[global] Instance lost_or_database_error_dec started p :
  Decision (lost_or_database_error started p).
Proof. unfold lost_or_database_error. apply _. Defined.

(** From [s] to [s'] no task id left the reconciliation set and
    [remove_task_id] was not called. *)
Definition keeps_recon (s s' : t E) : Prop :=
  recon s ⊆ recon s'
  ∧ ∃ l, calls s' = calls s ++ l ∧ Forall (λ c, ¬ is_recon_remove c) l.

End Spec.
End SchedulerSpec.

(** ** Collaborators for the scenarios of the scheduler *)

Module Fixture.
Import ScaleScheduler.

(** A running execution for the scenarios: its id, its node, its current
    task, whether it is finished, and whether the database refuses its
    writes. *)
Record exe : Type := mk_exe {
  id : Z;
  node : Z;
  task : option string;
  finished : bool;
  db_down : bool
}.

Definition finish (e : exe) : exe := mk_exe (id e) (node e) None true (db_down e).

(** Every transition that ends the execution writes to the database. *)
Definition write (e : exe) : exe * outcome :=
  if db_down e then (e, Raised DatabaseError) else (finish e, Returned).

#[global] Instance collaborators : Collaborators exe := {|
  CLEANUP_TASK_ID_PREFIX := "scale_cleanup_";
  get_job_exe_id task_id :=
    if decide (task_id = "t1") then Ok 1
    else if decide (task_id = "t2") then Ok 2
    else if decide (task_id = "t9") then Ok 9
    else Err OtherException;
  exe_id := id;
  exe_node_id := node;
  current_task := task;
  is_finished := finished;
  task_start e _ _ := (e, Returned);
  task_complete e _ := write e;
  task_lost e _ := write e;
  task_fail e _ := write e;
  execution_lost e _ := write e;
  get_job_exe_raises _ := None;
  handle_job_failure_raises _ := None
|}.

(** Two executions run on node 7, the node of agent [a1]; the database
    refuses the writes of the first. *)
Definition e1 : exe := mk_exe 1 7 (Some "t1") false true.
Definition e2 : exe := mk_exe 2 7 (Some "t2") false false.

Definition s0 : t exe :=
  mk {["t1"; "t2"]} {[1 := e1; 2 := e2]} [] {["a1" := mk_node 7 "host1"]} [].

End Fixture.

(** ** Further observations on the scheduler *)

Module SchedulerObservations.
Import ScaleScheduler.

Definition is_recon_add (c : call) : Prop :=
  match c with recon_add_task_ids _ => True | _ => False end.

(** The calls that apply a status update to a running execution. *)
Definition is_transition (c : call) : Prop :=
  match c with
  | exe_task_start _ _ _ | exe_task_complete _ _ | exe_task_lost _ _ | exe_task_fail _ _ => True
  | _ => False
  end.

#[global] Instance is_recon_add_dec c : Decision (is_recon_add c).
Proof. destruct c; apply _. Defined.
#[global] Instance is_transition_dec c : Decision (is_transition c).
Proof. destruct c; apply _. Defined.

(** The scalar of the last resource of an offer with the given name, 0
    when the offer has none. *)
Definition last_scalar (name : string) (resources : list Resource) : Z :=
  default 0 (scalar_value <$> last (filter (λ resource, ScaleScheduler.name resource = name)
                                           resources)).

Section Observations.
Context {E : Type} `{!Collaborators E}.

(** The results a status update carries to [task_fail]: the exit code is
    the one parsed from the status, if any. *)
Definition parsed_results (status : Status) : TaskResults :=
  mk_results (task_id status) (exit_code status) (timestamp status).

(** The results a [TASK_FINISHED] update carries to [task_complete]. *)
Definition finished_results (status : Status) : TaskResults :=
  mk_results (task_id status) (Some (default 0 (exit_code status))) (timestamp status).

(** The call that a status update makes on the execution [job_exe_id],
    by the state it reports. *)
Definition transition_call (job_exe_id : Z) (status : Status) : list call :=
  match state status with
  | TASK_RUNNING => [exe_task_start job_exe_id (task_id status) (timestamp status)]
  | TASK_FINISHED => [exe_task_complete job_exe_id (finished_results status)]
  | TASK_LOST => [exe_task_lost job_exe_id (task_id status)]
  | TASK_ERROR | TASK_FAILED | TASK_KILLED => [exe_task_fail job_exe_id (parsed_results status)]
  | TASK_STAGING | TASK_STARTING => []
  end.

(** What that call makes of the execution, and whether it raises. *)
Definition transition (exe : E) (status : Status) : E * outcome :=
  match state status with
  | TASK_RUNNING => task_start exe (task_id status) (timestamp status)
  | TASK_FINISHED => task_complete exe (finished_results status)
  | TASK_LOST => task_lost exe (task_id status)
  | TASK_ERROR | TASK_FAILED | TASK_KILLED => task_fail exe (parsed_results status)
  | TASK_STAGING | TASK_STARTING => (exe, Returned)
  end.

(** Of the executions the database has as running, the current task ids
    of those the registry holds, and the ids of those it does not hold. *)
Definition held_task_ids (s : t E) (job_exes : list Z) : list string :=
  omap (λ job_exe_id, running s !! job_exe_id ≫= current_task) job_exes.

Definition lost_job_exes (s : t E) (job_exes : list Z) : list Z :=
  filter (λ job_exe_id, running s !! job_exe_id = None) job_exes.

(** From [s] to [s'] no execution and no node was added, nothing was
    taken back from the cleanup manager or from the trace, and no
    execution left the registry without one being handed to cleanup. *)
Definition only_shrinks (s s' : t E) : Prop :=
  dom (running s') ⊆ dom (running s)
  ∧ dom (nodes s') ⊆ dom (nodes s)
  ∧ cleanup s `prefix_of` cleanup s'
  ∧ calls s `prefix_of` calls s'
  ∧ (size (running s) + length (cleanup s) ≤ size (running s') + length (cleanup s'))%nat.

End Observations.
End SchedulerObservations.

(** ** Collaborators that fail, for the scenarios of the scheduler *)

Module FailingFixture.
Import ScaleScheduler.

(** A running execution whose transitions raise [fails], if any. *)
Record exe : Type := mk_exe {
  id : Z;
  node : Z;
  task : option string;
  finished : bool;
  fails : option exn
}.

Definition write (e : exe) : exe * outcome :=
  match fails e with
  | Some x => (e, Raised x)
  | None => (mk_exe (id e) (node e) None true None, Returned)
  end.

(** Recording the failure of execution 9 fails on the database. *)
#[global] Instance failing_collaborators : Collaborators exe := {|
  CLEANUP_TASK_ID_PREFIX := "scale_cleanup_";
  get_job_exe_id task_id :=
    if decide (task_id = "t1") then Ok 1
    else if decide (task_id = "t2") then Ok 2
    else if decide (task_id = "t9") then Ok 9
    else Err OtherException;
  exe_id := id;
  exe_node_id := node;
  current_task := task;
  is_finished := finished;
  task_start e _ _ := (e, Returned);
  task_complete e _ := write e;
  task_lost e _ := write e;
  task_fail e _ := write e;
  execution_lost e _ := write e;
  get_job_exe_raises _ := None;
  handle_job_failure_raises job_exe_id :=
    if decide (job_exe_id = 9) then Some DatabaseError else None
|}.

(** Three executions run on node 7, the node of agent [a1]; the registry
    lists them from the third to the first.  The third fails on the
    database and the second with another exception. *)
Definition e1 : exe := mk_exe 1 7 (Some "t1") false None.
Definition e2 : exe := mk_exe 2 7 (Some "t2") true (Some OtherException).
Definition e3 : exe := mk_exe 3 7 (Some "t3") false (Some DatabaseError).

Definition s0 : t exe :=
  mk {["t1"; "t2"]} {[1 := e1; 2 := e2; 3 := e3]} [] {["a1" := mk_node 7 "host1"]} [].

End FailingFixture.

(** ** Observations on the life cycle *)

Module LifecycleSpec.

(** The calls on the surroundings that a method adds to the trace. *)
Definition new_events {E : Type} (s s' : Lifecycle.t E) : list Lifecycle.event :=
  drop (length (Lifecycle.events s)) (Lifecycle.events s').

End LifecycleSpec.

(** ** Scenarios of the life cycle *)

Module LifecycleFixture.

(** No call on the surroundings raises. *)
#[global] Instance environment : Lifecycle.Environment := {|
  Lifecycle.raises _ := None
|}.

Definition jt1 : JobType.t := JobType.mk 1 "ingest" "1.0" None None true None.
Definition jt2 : JobType.t := JobType.mk 2 "parse" "1.0" (Some "Parse") None false None.

(** A scheduler that has just been constructed, beside the managers of
    [Fixture.s0]. *)
Definition fresh : Lifecycle.t Fixture.exe :=
  Lifecycle.init JobTypeManager.init Fixture.s0.

End LifecycleFixture.

(** * Proofs *)

(** ** Lists and dictionaries *)

Lemma filter_none {A : Type} (P : A → Prop) `{!∀ x, Decision (P x)} (l : list A) :
  Forall (λ x, ¬ P x) l → filter P l = [].
Proof.
  induction 1 as [|x l Hx _ IH]; [done|]. by rewrite filter_cons, decide_False.
Qed.

Lemma decide_elem_of_cons_ne {A B : Type} `{!EqDecision A} (x y : A) (l : list A) (u v : B) :
  x ≠ y →
  (if decide (x ∈ y :: l) then u else v) = (if decide (x ∈ l) then u else v).
Proof.
  intros Hne. destruct (decide (x ∈ l)) as [Hin|Hin].
  - rewrite decide_True; [done|by right].
  - rewrite decide_False; [done|]. intros [?|?]%elem_of_cons; done.
Qed.

Section Dict.
Context {V : Type}.
Implicit Types d : gmap string V.

Lemma elem_of_values d v : v ∈ values d ↔ ∃ k, d !! k = Some v.
Proof.
  unfold values. rewrite list_elem_of_fmap. split.
  - intros [[k v'] [-> H]]. exists k. by apply elem_of_map_to_list in H.
  - intros [k H]. exists (k, v). split; [done|]. by apply elem_of_map_to_list.
Qed.

Lemma values_empty : values (∅ : gmap string V) = [].
Proof. unfold values. by rewrite map_to_list_empty. Qed.
End Dict.

Section Group.
Context {A : Type} (key : A → string).

Lemma get_or_empty_group_step (d : gmap string (list A)) x a :
  get_or_empty (group_step key d x) a
  = get_or_empty d a ++ (if decide (key x = a) then [x] else []).
Proof.
  unfold group_step, get_or_empty.
  destruct (d !! key x) as [l|] eqn:Hd.
  - rewrite Hd. destruct (decide (key x = a)) as [<-|Hne].
    + by rewrite lookup_insert_eq, Hd.
    + rewrite lookup_insert_ne by done. by rewrite app_nil_r.
  - rewrite lookup_insert_eq. destruct (decide (key x = a)) as [<-|Hne].
    + by rewrite lookup_insert_eq, Hd.
    + rewrite !lookup_insert_ne by done. by rewrite app_nil_r.
Qed.

Lemma get_or_empty_foldl (xs : list A) (d : gmap string (list A)) a :
  get_or_empty (foldl (group_step key) d xs) a
  = get_or_empty d a ++ filter (λ x, key x = a) xs.
Proof.
  revert d. induction xs as [|x xs IH]; intros d; simpl.
  - by rewrite app_nil_r.
  - rewrite IH, get_or_empty_group_step, filter_cons.
    destruct (decide (key x = a)); simpl; by rewrite <- ?app_assoc, ?app_nil_r.
Qed.

Lemma get_or_empty_group_by (xs : list A) a :
  get_or_empty (group_by key xs) a = filter (λ x, key x = a) xs.
Proof. unfold group_by. by rewrite get_or_empty_foldl. Qed.
End Group.

(** ** The resource manager *)

Section ManagerLemmas.
Import ResourceManager.

Lemma add_new_offers_wf (d : gmap string ResourceOffer.t) offers :
  map_Forall (λ k o, ResourceOffer.id o = k) d →
  map_Forall (λ k o, ResourceOffer.id o = k)
    (foldl (λ d offer, <[ResourceOffer.id offer := offer]> d) d offers).
Proof.
  revert d. induction offers as [|o offers IH]; intros d Hd; simpl; [done|].
  apply IH. by apply map_Forall_insert_2.
Qed.

(** On a snapshot whose offers of the lost agent are still in the dict
    under distinct ids, the loop returns and deletes exactly them. *)
Lemma lost_agent_offers_spec a vals (d : gmap string ResourceOffer.t) :
  NoDup (ResourceOffer.id <$> vals) →
  (∀ o, o ∈ vals → ResourceOffer.agent_id o = a → d !! ResourceOffer.id o = Some o) →
  ∃ d', lost_agent_offers a vals d = (d', Returned)
        ∧ ∀ k, d' !! k =
               if decide (k ∈ ResourceOffer.id <$> filter (λ o, ResourceOffer.agent_id o = a) vals)
               then None else d !! k.
Proof.
  revert d. induction vals as [|o vals IH]; intros d Hnd Hin; cbn [lost_agent_offers].
  - exists d. split; [done|]. intros k. rewrite filter_nil.
    case_decide as H; [|done]. by apply elem_of_nil in H.
  - rewrite fmap_cons in Hnd. apply NoDup_cons in Hnd as [Hno Hnd].
    rewrite filter_cons. destruct (decide (ResourceOffer.agent_id o = a)) as [Ha|Ha].
    + unfold del. rewrite (Hin o) by (done || left).
      destruct (IH (delete (ResourceOffer.id o) d) Hnd) as (d' & -> & Hd').
      { intros o' Ho' Ha'. rewrite lookup_delete_ne.
        - apply Hin; [by right|done].
        - intros Heq. apply Hno. rewrite Heq. apply list_elem_of_fmap. eauto. }
      exists d'. split; [done|]. intros k. rewrite Hd'.
      destruct (decide (k = ResourceOffer.id o)) as [->|Hk].
      * rewrite lookup_delete_eq. rewrite (decide_True (P := _ ∈ _ <$> _ :: _)).
        -- by case_decide.
        -- rewrite fmap_cons. left.
      * rewrite lookup_delete_ne by done. rewrite fmap_cons.
        by rewrite decide_elem_of_cons_ne.
    + destruct (IH d Hnd) as (d' & -> & Hd').
      { intros o' Ho' Ha'. apply Hin; [by right|done]. }
      exists d'. split; [done|]. done.
Qed.

Lemma values_ids_NoDup (d : gmap string ResourceOffer.t) :
  map_Forall (λ k o, ResourceOffer.id o = k) d →
  NoDup (ResourceOffer.id <$> values d).
Proof.
  intros Hwf. unfold values.
  assert (ResourceOffer.id <$> (map_to_list d).*2 = (map_to_list d).*1) as ->.
  { rewrite <- list_fmap_compose. apply list_fmap_ext.
    intros i [k o] H. simpl. apply list_elem_of_lookup_2, elem_of_map_to_list in H.
    by apply Hwf in H. }
  apply NoDup_fst_map_to_list.
Qed.

(** On a well-formed manager [lost_agent] returns; it keeps the pending
    offers of the other agents and drops the ledger of the lost one. *)
Lemma lost_agent_returns m a :
  wf m →
  ∃ d', lost_agent m a = (mk (delete a (_agent_resources m)) (_last_watermark_reset m) d', Returned)
        ∧ ∀ k, d' !! k = match _new_offers m !! k with
                         | Some o => if decide (ResourceOffer.agent_id o = a) then None else Some o
                         | None => None
                         end.
Proof.
  intros [Ho Ha]. unfold lost_agent.
  destruct (lost_agent_offers_spec a (values (_new_offers m)) (_new_offers m))
    as (d' & -> & Hd').
  { by apply values_ids_NoDup. }
  { intros o [k Hk]%elem_of_values _. by rewrite (Ho _ _ Hk). }
  exists d'. split.
  - f_equal. f_equal. destruct (_agent_resources m !! a) eqn:E; [done|].
    symmetry. by apply delete_id.
  - intros k. rewrite Hd'. destruct (_new_offers m !! k) as [o|] eqn:E.
    + case_decide as Hin.
      * apply list_elem_of_fmap in Hin as (o' & -> & Hin).
        apply list_elem_of_filter in Hin as [Hag [k' Hk']%elem_of_values].
        pose proof (Ho _ _ Hk') as <-. rewrite Hk' in E. injection E as <-.
        by rewrite decide_True.
      * case_decide as Hag; [|done]. exfalso. apply Hin.
        apply list_elem_of_fmap. exists o. split; [by rewrite (Ho _ _ E)|].
        apply list_elem_of_filter. split; [done|]. apply elem_of_values. eauto.
    + by case_decide.
Qed.

Lemma create_agents_lookup vals (agents : gmap string AgentResources.t) a :
  create_agents agents vals !! a =
  match agents !! a with
  | Some ar => Some ar
  | None => if decide (a ∈ ResourceOffer.agent_id <$> vals)
            then Some (AgentResources.new a) else None
  end.
Proof.
  revert agents. induction vals as [|o vals IH]; intros agents; cbn [create_agents foldl].
  - destruct (agents !! a); [done|]. rewrite fmap_nil.
    rewrite decide_False; [done|]. apply not_elem_of_nil.
  - unfold create_agents in IH. rewrite IH. rewrite fmap_cons.
    destruct (agents !! ResourceOffer.agent_id o) as [ar|] eqn:E.
    + destruct (agents !! a) eqn:E'; [done|].
      rewrite decide_elem_of_cons_ne; [done|congruence].
    + destruct (decide (a = ResourceOffer.agent_id o)) as [->|Hne].
      * rewrite lookup_insert_eq, E. rewrite decide_True by left. done.
      * rewrite lookup_insert_ne by done. destruct (agents !! a); [done|].
        by rewrite decide_elem_of_cons_ne.
Qed.

Lemma create_agents_wf vals (agents : gmap string AgentResources.t) :
  map_Forall (λ k a, AgentResources.agent_id a = k) agents →
  map_Forall (λ k a, AgentResources.agent_id a = k) (create_agents agents vals).
Proof.
  intros Hwf k ar. rewrite create_agents_lookup.
  destruct (agents !! k) eqn:E.
  - intros [= <-]. by apply Hwf in E.
  - case_decide; [|done]. by intros [= <-].
Qed.

Lemma agents_wf_fmap (f : AgentResources.t → AgentResources.t) (agents : gmap string AgentResources.t) :
  (∀ ar, AgentResources.agent_id (f ar) = AgentResources.agent_id ar) →
  map_Forall (λ k a, AgentResources.agent_id a = k) agents →
  map_Forall (λ k a, AgentResources.agent_id a = k) (f <$> agents).
Proof.
  intros Hf Hwf k ar. rewrite lookup_fmap. destruct (agents !! k) eqn:E; [|done].
  intros [= <-]. rewrite Hf. by apply Hwf in E.
Qed.

Lemma remove_offers_buffer_wf ids (d : gmap string ResourceOffer.t) :
  map_Forall (λ k o, ResourceOffer.id o = k) d →
  map_Forall (λ k o, ResourceOffer.id o = k)
    (foldl (λ d offer_id, match d !! offer_id with
                          | Some _ => delete offer_id d
                          | None => d
                          end) d ids).
Proof.
  revert d. induction ids as [|i ids IH]; intros d Hd; simpl; [done|].
  apply IH. destruct (d !! i); [|done]. by apply map_Forall_delete.
Qed.

(** [wf] is an invariant of the manager. *)
Lemma reachable_wf m : reachable m → wf m.
Proof.
  induction 1 as [|m offers _ [Ho Ha]|m a _ [Ho Ha]|m tasks when _ [Ho Ha]
                  |m ids _ [Ho Ha]|m sh _ [Ho Ha]].
  - split; apply map_Forall_empty.
  - split; [by apply add_new_offers_wf|done].
  - destruct (lost_agent_returns m a) as (d' & -> & Hd'); [done|]. split; simpl.
    + intros k o. rewrite Hd'. destruct (_new_offers m !! k) eqn:E; [|done].
      case_decide; [done|]. intros [= <-]. by apply Ho in E.
    + by apply map_Forall_delete.
  - unfold refresh_agent_resources.
    assert (map_Forall (λ k a, AgentResources.agent_id a = k)
              (refresh_agent (group_by ResourceOffer.agent_id (values (_new_offers m)))
                             (group_by Task.agent_id tasks)
               <$> create_agents (_agent_resources m) (values (_new_offers m)))) as Hr.
    { apply agents_wf_fmap; [done|]. by apply create_agents_wf. }
    destruct (_last_watermark_reset m) as [last|]; [case_match|];
      (split; simpl; [apply map_Forall_empty|]); try done.
    by apply agents_wf_fmap.
  - split; simpl; [by apply remove_offers_buffer_wf|by apply agents_wf_fmap].
  - split; simpl; [done|by apply agents_wf_fmap].
Qed.

(** No method sets the time of the last watermark reset before
    [refresh_agent_resources] has read it. *)
Lemma reachable_last_watermark_reset m :
  reachable m → _last_watermark_reset m = None.
Proof.
  induction 1 as [|m offers _ IH|m a _ IH|m tasks when _ IH|m ids _ IH|m sh _ IH];
    try done.
  - unfold lost_agent. by destruct (lost_agent_offers _ _ _) as [d [|e]].
  - unfold refresh_agent_resources. by rewrite IH.
Qed.
End ManagerLemmas.

Section ManagerTheorems.
Import ResourceManager.

(** The agents after a refresh: every ledger that exists once the new
    agents are created is refreshed once, and reset if the reset is due. *)
Lemma refresh_agents_lookup m tasks when k :
  _agent_resources (refresh_agent_resources m tasks when).1 !! k =
  (λ ar0,
     let x := AgentResources.refresh_resources ar0
                (filter (λ o, ResourceOffer.agent_id o = AgentResources.agent_id ar0)
                        (values (_new_offers m)))
                (filter (λ t, Task.agent_id t = AgentResources.agent_id ar0) tasks) in
     match _last_watermark_reset m with
     | Some last =>
         if when >? last + WATERMARK_RESET_PERIOD then AgentResources.reset_watermark x else x
     | None => x
     end)
  <$> create_agents (_agent_resources m) (values (_new_offers m)) !! k.
Proof.
  unfold refresh_agent_resources.
  destruct (_last_watermark_reset m) as [last|]; [case_match|]; simpl;
    rewrite ?lookup_fmap; destruct (create_agents _ _ !! k) as [ar0|]; simpl; try done;
    unfold refresh_agent; by rewrite !get_or_empty_group_by.
Qed.

Lemma refresh_buffer_empty m tasks when :
  _new_offers (refresh_agent_resources m tasks when).1 = ∅.
Proof.
  unfold refresh_agent_resources.
  by destruct (_last_watermark_reset m) as [last|]; [case_match|].
Qed.

Lemma status_nodes_totals agents nodes tot :
  (status_nodes agents nodes tot).2 =
  foldl (λ tot node, match agents !! nd_agent_id node with
                     | Some ar => (AgentResources.generate_status_json ar tot).2
                     | None => tot
                     end) tot nodes.
Proof.
  revert tot. induction nodes as [|n nodes IH]; intros tot; simpl; [done|].
  destruct (agents !! nd_agent_id n) as [ar|].
  - rewrite <- IH. by destruct (status_nodes _ _ _).
  - rewrite <- IH. by destruct (status_nodes _ _ _).
Qed.

Lemma status_nodes_delete a agents nodes tot :
  (status_nodes (delete a agents) nodes tot).2 =
  (status_nodes agents (filter (λ n, nd_agent_id n ≠ a) nodes) tot).2.
Proof.
  rewrite !status_nodes_totals. revert tot.
  induction nodes as [|n nodes IH]; intros tot; [done|].
  rewrite filter_cons. destruct (decide (nd_agent_id n ≠ a)) as [Hne|Heq]; simpl.
  - rewrite lookup_delete_ne by done. apply IH.
  - apply dec_stable in Heq. rewrite Heq, lookup_delete_eq. apply IH.
Qed.

Lemma generate_status_json_resources m status :
  sd_resources (generate_status_json m status) =
  (let tot := (status_nodes (_agent_resources m) (sd_nodes status)
                 (AgentResources.mk_totals NodeResources.zero NodeResources.zero NodeResources.zero)).2 in
   Some (mk_resources
           (NodeResources.generate_status_json (AgentResources.total_running tot) ∅)
           (NodeResources.generate_status_json (AgentResources.total_offered tot) ∅)
           (NodeResources.generate_status_json (AgentResources.total_watermark tot) ∅))).
Proof. unfold generate_status_json. by destruct (status_nodes _ _ _). Qed.

(** Every call of [refresh_agent_resources] on a manager the program can
    build raises [TypeError]: [_last_watermark_reset] is [None] from the
    constructor on, and the only assignment to it comes after the sum
    [None + WATERMARK_RESET_PERIOD]. *)
Lemma refresh_agent_resources_raises m tasks when :
  reachable m → (refresh_agent_resources m tasks when).2 = Raised TypeError.
Proof.
  intros Hm%reachable_last_watermark_reset. unfold refresh_agent_resources. by rewrite Hm.
Qed.

(** C1: on the scenario of the spec (a fresh manager, offer [o1] added,
    then [refresh_agent_resources([])], at any time) the call does not
    complete: it raises [TypeError] at the watermark check, after having
    refreshed agent [a1] to offered = {cpus 4, mem 1024, disk 0} and
    running = {0, 0, 0}; the time of the last reset stays unset. *)
Theorem refresh_agent_resources_first_call_raises (when : Z) :
  (refresh_agent_resources (add_new_offers init [o1]) [] when).2 = Raised TypeError
  ∧ AgentResources.offered
      <$> _agent_resources (refresh_agent_resources (add_new_offers init [o1]) [] when).1 !! "a1"
    = Some (NodeResources.mk 4 1024 0)
  ∧ AgentResources.running
      <$> _agent_resources (refresh_agent_resources (add_new_offers init [o1]) [] when).1 !! "a1"
    = Some (NodeResources.mk 0 0 0)
  ∧ _last_watermark_reset (refresh_agent_resources (add_new_offers init [o1]) [] when).1 = None.
Proof. by vm_compute. Qed.

(** C6: on a well-formed manager [lost_agent(agent_id)] returns, and after
    it no pending offer of that agent is left in the buffer, the agent has
    no ledger, and the cluster totals of [generate_status_json] are those
    of the nodes of the other agents: the lost agent adds nothing to
    them. *)
Theorem lost_agent_purges_agent m agent_id :
  wf m →
  ∃ m', lost_agent m agent_id = (m', Returned)
    ∧ map_Forall (λ _ offer, ResourceOffer.agent_id offer ≠ agent_id) (_new_offers m')
    ∧ _agent_resources m' !! agent_id = None
    ∧ ∀ status,
        sd_resources (generate_status_json m' status) =
        sd_resources (generate_status_json m
          (mk_status_dict (filter (λ n, nd_agent_id n ≠ agent_id) (sd_nodes status))
                          (sd_resources status))).
Proof.
  intros Hwf. destruct (lost_agent_returns m agent_id Hwf) as (d' & Heq & Hd').
  eexists. split; [exact Heq|]. simpl. split; [|split].
  - intros k o. rewrite Hd'. destruct (_new_offers m !! k); [|done].
    case_decide; [done|]. by intros [= <-].
  - apply lookup_delete_eq.
  - intros status. rewrite !generate_status_json_resources. simpl.
    by rewrite status_nodes_delete.
Qed.

Lemma lost_agent_purges_agent_witness :
  ∃ m', lost_agent (add_new_offers init [o1]) "a1" = (m', Returned)
    ∧ map_Forall (λ _ offer, ResourceOffer.agent_id offer ≠ "a1") (_new_offers m')
    ∧ _agent_resources m' !! "a1" = None
    ∧ ∀ status,
        sd_resources (generate_status_json m' status) =
        sd_resources (generate_status_json (add_new_offers init [o1])
          (mk_status_dict (filter (λ n, nd_agent_id n ≠ "a1") (sd_nodes status))
                          (sd_resources status))).
Proof.
  apply (lost_agent_purges_agent (add_new_offers init [o1]) "a1").
  apply (bool_decide_unpack _). vm_compute. exact I.
Defined.

(** C10: ids the manager has never seen.  [remove_offers] with offer ids
    that are not in the pending buffer leaves the buffer as it is, and
    the whole manager when no agent holds such an offer either;
    [lost_agent] with an agent id that has no ledger and no pending offer
    returns and leaves the manager as it is. *)
Theorem unseen_ids_are_noops m :
  (∀ offer_ids,
     Forall (λ i, _new_offers m !! i = None) offer_ids →
     _new_offers (remove_offers m offer_ids) = _new_offers m
     ∧ (map_Forall (λ _ ar, Forall (λ o, ResourceOffer.id o ∉ offer_ids) (AgentResources.offers ar))
                   (_agent_resources m) →
        remove_offers m offer_ids = m))
  ∧ (∀ agent_id,
       _agent_resources m !! agent_id = None →
       map_Forall (λ _ offer, ResourceOffer.agent_id offer ≠ agent_id) (_new_offers m) →
       lost_agent m agent_id = (m, Returned)).
Proof.
  split.
  - intros ids Hids.
    assert (foldl (λ d offer_id, match d !! offer_id with
                                 | Some _ => delete offer_id d
                                 | None => d
                                 end) (_new_offers m) ids = _new_offers m) as Hbuf.
    { induction Hids as [|i ids Hi _ IH]; simpl; [done|]. by rewrite Hi. }
    split; [exact Hbuf|]. intros Hag. unfold remove_offers. rewrite Hbuf.
    destruct m as [agents last buf]; simpl in *. f_equal.
    rewrite <- (map_fmap_id agents) at 2. apply map_fmap_ext. intros k [aid offs r wmin wmax sh] Hk.
    apply Hag in Hk. simpl in Hk. unfold AgentResources.remove_offers; simpl. f_equal.
    induction Hk as [|o offs Ho _ IH]; [done|].
    rewrite filter_cons, decide_True by done. by rewrite IH.
  - intros a Hag Hbuf. unfold lost_agent.
    assert (∀ vals d, Forall (λ o, ResourceOffer.agent_id o ≠ a) vals →
                      lost_agent_offers a vals d = (d, Returned)) as Hloop.
    { intros vals d Hv. induction Hv as [|o vals Ho _ IH]; simpl; [done|].
      by rewrite decide_False. }
    rewrite Hloop, Hag; [by destruct m|].
    apply Forall_forall. intros o [k Hk]%elem_of_values. by apply Hbuf in Hk.
Qed.

Lemma unseen_ids_are_noops_witness :
  _new_offers (remove_offers (add_new_offers init [o1]) ["o2"]) = _new_offers (add_new_offers init [o1])
  ∧ remove_offers (add_new_offers init [o1]) ["o2"] = add_new_offers init [o1]
  ∧ lost_agent (add_new_offers init [o1]) "a2" = (add_new_offers init [o1], Returned).
Proof.
  destruct (unseen_ids_are_noops (add_new_offers init [o1])) as [Hrem Hlost].
  destruct (Hrem ["o2"]) as [Hbuf Hall].
  { apply (bool_decide_unpack _). vm_compute. exact I. }
  split; [exact Hbuf|]. split.
  - apply Hall. apply (bool_decide_unpack _). vm_compute. exact I.
  - apply Hlost; [reflexivity|]. apply (bool_decide_unpack _). vm_compute. exact I.
Defined.

Lemma is_satisfied_by_refl r : NodeResources.is_satisfied_by r r = true.
Proof. unfold NodeResources.is_satisfied_by. by rewrite !Z.leb_refl. Qed.

(** What a refresh leaves in a ledger: the offers and tasks of the cycle
    that name the agent of the ledger. *)
Lemma refresh_ledger m tasks when k ar :
  _agent_resources (refresh_agent_resources m tasks when).1 !! k = Some ar →
  AgentResources.offers ar
  = filter (λ o, ResourceOffer.agent_id o = AgentResources.agent_id ar) (values (_new_offers m))
  ∧ AgentResources.running ar
    = NodeResources.sum (Task.resources
        <$> filter (λ t, Task.agent_id t = AgentResources.agent_id ar) tasks).
Proof.
  rewrite refresh_agents_lookup.
  destruct (create_agents _ _ !! k) as [ar0|]; [|done]. simpl. intros [= <-].
  destruct (_last_watermark_reset m) as [last|]; [case_match|]; done.
Qed.

(** C8: [refresh_agent_resources] empties the pending buffer, so an offer
    is handed to one refresh only.  After the call (whether or not its
    watermark check raises) the ledger of every agent holds the pending
    offers of that agent and the tasks of that agent, each once: its
    running + offered is within the sum of the resources of the offers
    and tasks supplied to the cycle for it, and a second refresh with
    no offer added in between counts none of the offers again. *)
Theorem refresh_no_double_counting m tasks when :
  _new_offers (refresh_agent_resources m tasks when).1 = ∅
  ∧ (∀ k ar,
       _agent_resources (refresh_agent_resources m tasks when).1 !! k = Some ar →
       AgentResources.offered ar
       = NodeResources.sum (ResourceOffer.resources
           <$> filter (λ o, ResourceOffer.agent_id o = AgentResources.agent_id ar)
                      (values (_new_offers m)))
       ∧ AgentResources.running ar
         = NodeResources.sum (Task.resources
             <$> filter (λ t, Task.agent_id t = AgentResources.agent_id ar) tasks)
       ∧ NodeResources.is_satisfied_by
           (NodeResources.add (AgentResources.running ar) (AgentResources.offered ar))
           (NodeResources.add
              (NodeResources.sum (Task.resources
                 <$> filter (λ t, Task.agent_id t = AgentResources.agent_id ar) tasks))
              (NodeResources.sum (ResourceOffer.resources
                 <$> filter (λ o, ResourceOffer.agent_id o = AgentResources.agent_id ar)
                            (values (_new_offers m)))))
         = true)
  ∧ (∀ tasks' when' k ar,
       _agent_resources
         (refresh_agent_resources (refresh_agent_resources m tasks when).1 tasks' when').1 !! k
       = Some ar →
       AgentResources.offered ar = NodeResources.zero).
Proof.
  split; [apply refresh_buffer_empty|]. split.
  - intros k ar [Hoff Hrun]%refresh_ledger. unfold AgentResources.offered.
    rewrite Hoff at 1. rewrite Hrun at 1. split; [done|]. split; [done|].
    rewrite Hoff, Hrun at 1. apply is_satisfied_by_refl.
  - intros tasks' when' k ar [Hoff _]%refresh_ledger. unfold AgentResources.offered.
    rewrite Hoff at 1. by rewrite refresh_buffer_empty, values_empty.
Qed.

Lemma refresh_no_double_counting_witness :
  ∃ ar, _agent_resources (refresh_agent_resources (add_new_offers init [o1]) [t1] 0).1 !! "a1"
        = Some ar
        ∧ AgentResources.offered ar = NodeResources.mk 4 1024 0
        ∧ AgentResources.running ar = NodeResources.mk 2 512 0.
Proof.
  destruct (refresh_no_double_counting (add_new_offers init [o1]) [t1] 0) as (_ & H & _).
  exists (AgentResources.mk "a1" [o1] (NodeResources.mk 2 512 0)
            NodeResources.zero (NodeResources.mk 6 1536 0) None).
  assert (_agent_resources (refresh_agent_resources (add_new_offers init [o1]) [t1] 0).1 !! "a1"
          = Some (AgentResources.mk "a1" [o1] (NodeResources.mk 2 512 0)
                    NodeResources.zero (NodeResources.mk 6 1536 0) None)) as Hl
    by (vm_compute; reflexivity).
  split; [exact Hl|].
  destruct (H _ _ Hl) as (Hoff & Hrun & _).
  split; (etrans; [eassumption|vm_compute; reflexivity]).
Defined.

(** C9: in [refresh_agent_resources] an agent has a ledger afterwards
    exactly when it had one before or a pending offer names it: tasks
    create none.  The ledger of a known agent is its old ledger refreshed
    once with the pending offers and the tasks of that agent (empty lists
    when there are none), and reset when the reset is due; a new agent
    gets a fresh ledger refreshed the same way.  A task whose agent has
    neither a ledger nor a pending offer is in no ledger's refresh and
    the call does what it does without that task. *)
Theorem refresh_agents_from_offers_only m tasks when :
  wf m →
  (∀ a, is_Some (_agent_resources (refresh_agent_resources m tasks when).1 !! a)
        ↔ is_Some (_agent_resources m !! a)
          ∨ a ∈ ResourceOffer.agent_id <$> values (_new_offers m))
  ∧ (∀ a ar0,
       _agent_resources m !! a = Some ar0 ∨
       (_agent_resources m !! a = None ∧ ar0 = AgentResources.new a
        ∧ a ∈ ResourceOffer.agent_id <$> values (_new_offers m)) →
       ∃ ar, _agent_resources (refresh_agent_resources m tasks when).1 !! a = Some ar
             ∧ (ar = AgentResources.refresh_resources ar0
                       (filter (λ o, ResourceOffer.agent_id o = a) (values (_new_offers m)))
                       (filter (λ t, Task.agent_id t = a) tasks)
                ∨ ar = AgentResources.reset_watermark
                         (AgentResources.refresh_resources ar0
                            (filter (λ o, ResourceOffer.agent_id o = a) (values (_new_offers m)))
                            (filter (λ t, Task.agent_id t = a) tasks))))
  ∧ (∀ t tasks1 tasks2,
       tasks = tasks1 ++ t :: tasks2 →
       _agent_resources m !! Task.agent_id t = None →
       Task.agent_id t ∉ ResourceOffer.agent_id <$> values (_new_offers m) →
       _agent_resources (refresh_agent_resources m tasks when).1 !! Task.agent_id t = None
       ∧ (∀ k ar, _agent_resources (refresh_agent_resources m tasks when).1 !! k = Some ar →
                  t ∉ filter (λ t', Task.agent_id t' = AgentResources.agent_id ar) tasks)
       ∧ refresh_agent_resources m tasks when = refresh_agent_resources m (tasks1 ++ tasks2) when).
Proof.
  intros [Ho Ha]. split; [|split].
  - intros a. rewrite refresh_agents_lookup, fmap_is_Some, create_agents_lookup.
    destruct (_agent_resources m !! a) as [ar|].
    { split; [intros _; left|]; eauto. }
    destruct (decide (a ∈ _)) as [Hin|Hin]; split.
    + intros _. by right.
    + eauto.
    + intros [? [=]].
    + intros [[? [=]]|?]; done.
  - intros a ar0 H. rewrite refresh_agents_lookup, create_agents_lookup.
    assert (AgentResources.agent_id ar0 = a ∧
            match _agent_resources m !! a with
            | Some ar => Some ar
            | None => if decide (a ∈ ResourceOffer.agent_id <$> values (_new_offers m))
                      then Some (AgentResources.new a) else None
            end = Some ar0) as [Hid ->].
    { destruct H as [H|(H & -> & Hin)]; rewrite H.
      - split; [by apply Ha in H|done].
      - by rewrite decide_True. }
    simpl. rewrite Hid. eexists. split; [done|].
    destruct (_last_watermark_reset m) as [last|]; [case_match|]; auto.
  - intros t tasks1 tasks2 -> Hnone Hnot.
    assert (∀ k ar0, create_agents (_agent_resources m) (values (_new_offers m)) !! k = Some ar0 →
                     AgentResources.agent_id ar0 ≠ Task.agent_id t) as Hcr.
    { intros k ar0 Hk Heq.
      pose proof (create_agents_wf (values (_new_offers m)) _ Ha _ _ Hk) as Hkey.
      simpl in Hkey. rewrite Heq in Hkey. subst k.
      rewrite create_agents_lookup, Hnone, decide_False in Hk; done. }
    split; [|split].
    + rewrite refresh_agents_lookup, create_agents_lookup, Hnone. by rewrite decide_False.
    + intros k ar. rewrite refresh_agents_lookup.
      destruct (create_agents _ _ !! k) as [ar0|] eqn:Hk; [|done]. simpl. intros [= <-].
      apply Hcr in Hk. intros [Hag _]%list_elem_of_filter. apply Hk.
      destruct (_last_watermark_reset m) as [last|]; [case_match|]; done.
    + unfold refresh_agent_resources.
      assert (refresh_agent (group_by ResourceOffer.agent_id (values (_new_offers m)))
                (group_by Task.agent_id (tasks1 ++ t :: tasks2))
              <$> create_agents (_agent_resources m) (values (_new_offers m))
              = refresh_agent (group_by ResourceOffer.agent_id (values (_new_offers m)))
                  (group_by Task.agent_id (tasks1 ++ tasks2))
                <$> create_agents (_agent_resources m) (values (_new_offers m))) as ->; [|done].
      apply map_fmap_ext. intros k ar0 Hk. apply Hcr in Hk. unfold refresh_agent.
      rewrite !get_or_empty_group_by, !filter_app, filter_cons.
      by rewrite decide_False.
Qed.

Lemma refresh_agents_from_offers_only_witness :
  _agent_resources (refresh_agent_resources (add_new_offers init [o1]) [t1; t2] 0).1 !! "a2" = None
  ∧ refresh_agent_resources (add_new_offers init [o1]) [t1; t2] 0
    = refresh_agent_resources (add_new_offers init [o1]) [t1] 0.
Proof.
  destruct (refresh_agents_from_offers_only (add_new_offers init [o1]) [t1; t2] 0)
    as (_ & _ & H).
  { apply (bool_decide_unpack _). vm_compute. exact I. }
  destruct (H t2 [t1] []) as (Hnone & _ & Heq).
  - reflexivity.
  - reflexivity.
  - apply (bool_decide_unpack _). vm_compute. exact I.
  - split; [exact Hnone|exact Heq].
Defined.

End ManagerTheorems.

(** ** The scheduler *)

Section SchedulerLemmas.
Import ScaleScheduler SchedulerSpec.
Context {E : Type} `{!Collaborators E}.
Implicit Types s : t E.

Lemma new_calls_app s s' l : calls s' = calls s ++ l → new_calls s s' = l.
Proof. unfold new_calls. intros ->. by rewrite drop_app_length. Qed.

Ltac sched_simpl :=
  cbn [recon running cleanup nodes calls log mutate add_task_ids remove_task_id
       remove_job_exe add_job_execution lost_node fst snd] in *.

(** What the body of the loop of [slaveLost] does for an execution whose
    [execution_lost] returns or fails on the database. *)
Lemma slaveLost_exe_spec key exe started s :
  lost_or_database_error started (key, exe) →
  ∃ s' l,
    slaveLost_exe key exe started s = (s', Returned)
    ∧ recon s' = match task_to_reconcile started (key, exe) with
                 | Some task => recon s ∪ {[task]}
                 | None => recon s
                 end
    ∧ nodes s' = nodes s
    ∧ calls s' = calls s ++ exe_execution_lost key started :: l
    ∧ Forall (λ c, ¬ is_recon_remove c ∧ ¬ is_execution_lost c) l
    ∧ (if is_finished (execution_lost exe started).1
       then running_remove_job_exe (exe_id (execution_lost exe started).1) ∈ l
            ∧ cleanup s' = cleanup s ++ [(execution_lost exe started).1]
            ∧ running s' !! exe_id (execution_lost exe started).1 = None
       else cleanup s' = cleanup s).
Proof.
  unfold lost_or_database_error, task_to_reconcile, slaveLost_exe. cbn [fst snd].
  destruct (execution_lost exe started) as [exe' out]. cbn [fst snd].
  intros [-> | ->]; [|destruct (current_task exe') as [task|]];
    destruct (is_finished exe'); eexists _, _; (split; [reflexivity|]); sched_simpl;
    rewrite <- ?app_assoc;
    (split; [by rewrite ?list_to_set_cons, ?list_to_set_nil, ?(right_id_L ∅ (∪))|]);
    (split; [done|]); (split; [reflexivity|]);
    (split; [repeat constructor; simpl; tauto|]);
    first [done | split; [by repeat constructor|]; split; [done|]; apply lookup_delete_eq].
Qed.

(** Once an execution is out of the registry, [slaveLost] does not put
    it back. *)
Lemma slaveLost_exe_running_None key exe started s k :
  running s !! k = None → running (slaveLost_exe key exe started s).1 !! k = None.
Proof.
  intros Hk. unfold slaveLost_exe. destruct (execution_lost exe started) as [exe' out].
  assert (running (mutate key exe' (log (exe_execution_lost key started) s)) !! k = None) as Hm.
  { sched_simpl. rewrite lookup_alter. case_decide; [subst|done]. by rewrite Hk. }
  destruct out as [|[]]; try destruct (current_task exe'); destruct (is_finished exe');
    sched_simpl; rewrite ?lookup_delete; try case_decide; done.
Qed.

Lemma slaveLost_loop_running_None exes started s k :
  running s !! k = None → running (slaveLost_loop exes started s).1 !! k = None.
Proof.
  revert s. induction exes as [|[key exe] exes IH]; intros s Hk; cbn [slaveLost_loop]; [done|].
  pose proof (slaveLost_exe_running_None key exe started s k Hk) as Hstep.
  destruct (slaveLost_exe key exe started s) as [s' [|e]]; [by apply IH|done].
Qed.

Lemma slaveLost_loop_spec exes started s :
  Forall (lost_or_database_error started) exes →
  (slaveLost_loop exes started s).2 = Returned
  ∧ recon (slaveLost_loop exes started s).1
    = recon s ∪ list_to_set (omap (task_to_reconcile started) exes)
  ∧ nodes (slaveLost_loop exes started s).1 = nodes s
  ∧ ∃ l c,
      calls (slaveLost_loop exes started s).1 = calls s ++ l
      ∧ cleanup (slaveLost_loop exes started s).1 = cleanup s ++ c
      ∧ filter is_execution_lost l = (λ p, exe_execution_lost p.1 started) <$> exes
      ∧ Forall (λ c, ¬ is_recon_remove c) l
      ∧ Forall (λ p, is_finished (execution_lost p.2 started).1 = true →
                     running_remove_job_exe (exe_id (execution_lost p.2 started).1) ∈ l
                     ∧ (execution_lost p.2 started).1 ∈ c
                     ∧ running (slaveLost_loop exes started s).1
                         !! exe_id (execution_lost p.2 started).1 = None) exes.
Proof.
  intros Hok. revert s. induction Hok as [|[key exe] exes Hp Hok IH]; intros s;
    cbn [slaveLost_loop].
  - split; [done|]. split; [cbn [omap list_omap fst]; by rewrite list_to_set_nil, (right_id_L ∅ (∪))|].
    split; [done|]. exists [], [].
    rewrite !app_nil_r. repeat split; constructor.
  - destruct (slaveLost_exe_spec key exe started s Hp)
      as (s' & l0 & -> & Hrecon0 & Hnodes0 & Hcalls0 & Hl0 & Hfin0).
    destruct (IH s') as (Hret & Hrecon & Hnodes & l & c & Hcalls & Hclean & Hfilter & Hnorem & Hfin).
    split; [done|]. split.
    { rewrite Hrecon, Hrecon0. cbn [omap list_omap]. clear.
      destruct (task_to_reconcile started (key, exe)); [|done].
      by rewrite list_to_set_cons, (assoc_L (∪)). }
    split; [congruence|].
    exists (exe_execution_lost key started :: l0 ++ l),
           ((if is_finished (execution_lost exe started).1
             then [(execution_lost exe started).1] else []) ++ c).
    split; [by rewrite Hcalls, Hcalls0, <- app_assoc|].
    split.
    { rewrite Hclean. destruct (is_finished _).
      - destruct Hfin0 as (_ & -> & _). by rewrite <- app_assoc.
      - by rewrite Hfin0. }
    split.
    { rewrite filter_cons, decide_True by done. rewrite filter_app, Hfilter.
      rewrite fmap_cons. cbn [fst]. f_equal.
      rewrite (filter_none _ l0); [done|]. eapply Forall_impl; [exact Hl0|].
      cbn beta. tauto. }
    split.
    { constructor; [cbn; tauto|]. apply Forall_app. split; [|done].
      eapply Forall_impl; [exact Hl0|]. cbn beta. tauto. }
    constructor.
    + cbn [snd fst]. intros Hf. rewrite Hf in Hfin0. destruct Hfin0 as (H1 & H2 & H3).
      split; [|split].
      * right. apply elem_of_app. by left.
      * rewrite Hf. apply elem_of_app. left. apply list_elem_of_singleton. done.
      * by apply slaveLost_loop_running_None.
    + eapply Forall_impl; [exact Hfin|]. cbn beta. intros p Hp' Hf.
      destruct (Hp' Hf) as (H1 & H2 & H3). split; [|split]; [|by apply elem_of_app; right|done].
      right. apply elem_of_app. by right.
Qed.

Lemma keeps_recon_refl s : keeps_recon s s.
Proof. split; [done|]. exists []. by rewrite app_nil_r. Qed.

Lemma keeps_recon_trans s1 s2 s3 :
  keeps_recon s1 s2 → keeps_recon s2 s3 → keeps_recon s1 s3.
Proof.
  intros [H1 (l1 & Hl1 & Hf1)] [H2 (l2 & Hl2 & Hf2)]. split; [by etrans|].
  exists (l1 ++ l2). split; [by rewrite Hl2, Hl1, <- app_assoc|]. by apply Forall_app.
Qed.

Lemma keeps_recon_log c s : ¬ is_recon_remove c → keeps_recon s (log c s).
Proof. intros Hc. split; [done|]. exists [c]. split; [done|]. by constructor. Qed.

Lemma keeps_recon_add_task_ids ids s : keeps_recon s (add_task_ids ids s).
Proof.
  split; [sched_simpl; apply union_subseteq_l|].
  exists [recon_add_task_ids ids]. split; [done|]. constructor; [cbn; tauto|constructor].
Qed.

Lemma keeps_recon_mutate k exe s : keeps_recon s (mutate k exe s).
Proof. split; [done|]. exists []. by rewrite app_nil_r. Qed.

Lemma keeps_recon_remove_job_exe k s : keeps_recon s (remove_job_exe k s).
Proof.
  split; [done|]. exists [running_remove_job_exe k]. split; [done|].
  constructor; [cbn; tauto|constructor].
Qed.

Lemma keeps_recon_add_job_execution exe s : keeps_recon s (add_job_execution exe s).
Proof.
  split; [done|]. exists [cleanup_add_job_execution (exe_id exe)]. split; [done|].
  constructor; [cbn; tauto|constructor].
Qed.

Lemma keeps_recon_lost_node a s : keeps_recon s (lost_node a s).
Proof.
  split; [done|]. exists [node_lost_node a]. split; [done|].
  constructor; [cbn; tauto|constructor].
Qed.

Lemma keeps_recon_handle_job_failure j now ctx err s :
  keeps_recon s (handle_job_failure j now ctx err s).1.
Proof. apply keeps_recon_log. cbn. tauto. Qed.

Lemma keeps_recon_remove_if_finished j exe s : keeps_recon s (remove_if_finished j exe s).
Proof.
  unfold remove_if_finished. destruct (is_finished exe); [|apply keeps_recon_refl].
  eapply keeps_recon_trans; [apply keeps_recon_remove_job_exe|apply keeps_recon_add_job_execution].
Qed.

Lemma keeps_recon_apply_status_update j exe status results s :
  keeps_recon s (apply_status_update j exe status results s).1.1.
Proof.
  unfold apply_status_update.
  destruct (state status); try apply keeps_recon_refl;
    repeat match goal with |- context [let '(_, _) := ?x in _] => destruct x end;
    cbn [fst]; apply keeps_recon_log; cbn; tauto.
Qed.

Lemma keeps_recon_statusUpdate_try status j now s :
  keeps_recon s (statusUpdate_try status j now s).1.
Proof.
  unfold statusUpdate_try.
  eapply keeps_recon_trans; [apply (keeps_recon_log (running_get_job_exe j)); cbn; tauto|].
  destruct (get_job_exe_raises j); [apply keeps_recon_refl|].
  destruct (running _ !! j) as [exe|]; [|apply keeps_recon_handle_job_failure].
  pose proof (keeps_recon_apply_status_update j exe status
    (mk_results (task_id status) (exit_code status) (timestamp status))
    (log (running_get_job_exe j) s)) as Happly.
  destruct (apply_status_update _ _ _ _ _) as [[s1 exe'] out]. cbn [fst] in Happly.
  eapply keeps_recon_trans; [exact Happly|].
  destruct out; cbn [fst].
  - eapply keeps_recon_trans; [apply keeps_recon_mutate|apply keeps_recon_remove_if_finished].
  - apply keeps_recon_mutate.
Qed.

Lemma keeps_recon_slaveLost_exe key exe started s :
  keeps_recon s (slaveLost_exe key exe started s).1.
Proof.
  unfold slaveLost_exe. destruct (execution_lost exe started) as [exe' out].
  assert (keeps_recon s (mutate key exe' (log (exe_execution_lost key started) s))) as H1.
  { eapply keeps_recon_trans; [|apply keeps_recon_mutate].
    apply keeps_recon_log. cbn. tauto. }
  assert (∀ s0, keeps_recon s0
            (if is_finished exe'
             then add_job_execution exe' (remove_job_exe (exe_id exe') s0) else s0)) as H2.
  { intros s0. destruct (is_finished exe'); [|apply keeps_recon_refl].
    eapply keeps_recon_trans; [apply keeps_recon_remove_job_exe|apply keeps_recon_add_job_execution]. }
  destruct out as [|[]]; cbn [fst]; try done.
  - eapply keeps_recon_trans; [exact H1|apply H2].
  - eapply keeps_recon_trans; [exact H1|]. eapply keeps_recon_trans; [|apply H2].
    destruct (current_task exe'); [apply keeps_recon_add_task_ids|apply keeps_recon_refl].
Qed.

Lemma keeps_recon_slaveLost_loop exes started s :
  keeps_recon s (slaveLost_loop exes started s).1.
Proof.
  revert s. induction exes as [|[key exe] exes IH]; intros s; cbn [slaveLost_loop].
  - apply keeps_recon_refl.
  - pose proof (keeps_recon_slaveLost_exe key exe started s) as Hstep.
    destruct (slaveLost_exe key exe started s) as [s' [|e]]; cbn [fst] in *; [|done].
    eapply keeps_recon_trans; [exact Hstep|apply IH].
Qed.

Lemma keeps_recon_slaveLost s agent_id started :
  keeps_recon s (slaveLost s agent_id started).1.
Proof.
  unfold slaveLost.
  assert (keeps_recon s (log (offer_lost_node agent_id) (lost_node agent_id s))) as H1.
  { eapply keeps_recon_trans; [apply keeps_recon_lost_node|apply keeps_recon_log; cbn; tauto]. }
  destruct (nodes s !! agent_id) as [node|]; [|done].
  eapply keeps_recon_trans; [exact H1|].
  eapply keeps_recon_trans; [|apply keeps_recon_slaveLost_loop].
  apply keeps_recon_log. cbn. tauto.
Qed.

Lemma keeps_recon_reconcile_loop job_exes now task_ids s :
  keeps_recon s (reconcile_loop job_exes now task_ids s).1.1.
Proof.
  revert task_ids s. induction job_exes as [|j job_exes IH]; intros task_ids s;
    cbn [reconcile_loop]; [apply keeps_recon_refl|].
  assert (keeps_recon s (log (running_get_job_exe j) s)) as H1
    by (apply keeps_recon_log; cbn; tauto).
  destruct (get_job_exe_raises j); [done|].
  destruct (running _ !! j) as [exe|].
  - eapply keeps_recon_trans; [exact H1|apply IH].
  - pose proof (keeps_recon_handle_job_failure j now [] (get_builtin_error "scheduler-lost")
                  (log (running_get_job_exe j) s)) as H2.
    destruct (handle_job_failure _ _ _ _ _) as [s' [|e]]; cbn [fst] in *.
    + eapply keeps_recon_trans; [exact H1|]. eapply keeps_recon_trans; [exact H2|apply IH].
    + eapply keeps_recon_trans; [exact H1|exact H2].
Qed.

Lemma keeps_recon_reconcile_running_jobs s job_exes now :
  keeps_recon s (_reconcile_running_jobs s job_exes now).1.
Proof.
  unfold _reconcile_running_jobs.
  pose proof (keeps_recon_reconcile_loop job_exes now [] s) as H.
  destruct (reconcile_loop job_exes now [] s) as [[s' ids] [|e]]; cbn [fst] in *; [|done].
  eapply keeps_recon_trans; [exact H|apply keeps_recon_add_task_ids].
Qed.

Lemma keeps_recon_statusUpdate s status now :
  keeps_recon (remove_task_id (task_id status) s) (statusUpdate s status now).1.
Proof.
  unfold statusUpdate. destruct (String.prefix _ _).
  { apply keeps_recon_log. cbn. tauto. }
  eapply keeps_recon_trans;
    [apply (keeps_recon_log (task_update_add_status_update status)); cbn; tauto|].
  destruct (get_job_exe_id (task_id status)) as [j|e]; [|apply keeps_recon_refl].
  pose proof (keeps_recon_statusUpdate_try status j now
    (log (task_update_add_status_update status) (remove_task_id (task_id status) s))) as Htry.
  destruct (statusUpdate_try _ _ _ _) as [s' [|e]]; cbn [fst] in *; [done|].
  eapply keeps_recon_trans; [exact Htry|apply keeps_recon_add_task_ids].
Qed.

Lemma keeps_recon_new_calls s s' :
  keeps_recon s s' → Forall (λ c, ¬ is_recon_remove c) (new_calls s s').
Proof. intros [_ (l & Hl & Hf)]. by rewrite (new_calls_app _ _ _ Hl). Qed.

(** C5: [statusUpdate] starts by removing the reported task id from the
    reconciliation set, whatever it does afterwards: the first call it
    makes is [recon_mgr.remove_task_id(task_id)], it makes no other
    removal, and no other task id leaves the set.  No other callback
    calls [remove_task_id], and none takes a task id out of the set. *)
Theorem only_statusUpdate_removes_task_ids s :
  (∀ status now,
     (∃ rest, new_calls s (statusUpdate s status now).1
              = recon_remove_task_id (task_id status) :: rest
              ∧ Forall (λ c, ¬ is_recon_remove c) rest)
     ∧ recon s ∖ {[task_id status]} ⊆ recon (statusUpdate s status now).1)
  ∧ (∀ cb,
       (∀ status now, cb ≠ statusUpdate_cb status now) →
       recon s ⊆ recon (run s cb).1
       ∧ Forall (λ c, ¬ is_recon_remove c) (new_calls s (run s cb).1)).
Proof.
  split.
  - intros status now.
    destruct (keeps_recon_statusUpdate s status now) as [Hsub (l & Hl & Hf)].
    split; [|exact Hsub]. exists l. split; [|done].
    apply new_calls_app. rewrite Hl. sched_simpl. by rewrite <- app_assoc.
  - intros cb Hcb.
    assert (keeps_recon s (run s cb).1) as Hk.
    { destruct cb; cbn [run fst]; try apply keeps_recon_refl.
      - apply keeps_recon_reconcile_running_jobs.
      - apply keeps_recon_reconcile_running_jobs.
      - unfold resourceOffers. eapply keeps_recon_trans; apply keeps_recon_log; cbn; tauto.
      - unfold offerRescinded. apply keeps_recon_log. cbn. tauto.
      - by destruct (Hcb status now).
      - apply keeps_recon_slaveLost. }
    split; [apply Hk|by apply keeps_recon_new_calls].
Qed.

(** C3: a status update whose task id is not a cleanup task id and whose
    execution the registry does not hold makes one call of
    [handle_job_failure], for that execution id, with the built-in error
    [scheduler-lost] and an empty list; the callback returns. *)
Theorem statusUpdate_unknown_execution s status now job_exe_id :
  String.prefix CLEANUP_TASK_ID_PREFIX (task_id status) = false →
  get_job_exe_id (task_id status) = Ok job_exe_id →
  get_job_exe_raises job_exe_id = None →
  running s !! job_exe_id = None →
  (statusUpdate s status now).2 = Returned
  ∧ filter is_handle_job_failure (new_calls s (statusUpdate s status now).1)
    = [queue_handle_job_failure job_exe_id now [] (mk_error "scheduler-lost")].
Proof.
  intros Hprefix Hid Hraises Hnone. unfold statusUpdate, statusUpdate_try.
  rewrite Hprefix, Hid, Hraises. sched_simpl. rewrite Hnone.
  unfold handle_job_failure.
  destruct (handle_job_failure_raises job_exe_id); cbn [fst snd]; (split; [done|]);
    erewrite new_calls_app by (sched_simpl; rewrite <- !app_assoc; reflexivity);
    reflexivity.
Qed.

(** C4: in a status update of a task that is not a cleanup task, an
    exception raised in the [try] block (the lookup of the execution, the
    transition, the removal of a finished execution, the recording of the
    failure) does not leave the callback: the callback returns, and the
    task id is in the reconciliation set when it does. *)
Theorem statusUpdate_catches_exceptions s status now job_exe_id :
  String.prefix CLEANUP_TASK_ID_PREFIX (task_id status) = false →
  get_job_exe_id (task_id status) = Ok job_exe_id →
  (statusUpdate s status now).2 = Returned
  ∧ (∀ e,
       (statusUpdate_try status job_exe_id now
          (log (task_update_add_status_update status)
               (remove_task_id (task_id status) s))).2 = Raised e →
       task_id status ∈ recon (statusUpdate s status now).1
       ∧ ∃ before, calls (statusUpdate s status now).1
                   = before ++ [recon_add_task_ids [task_id status]]).
Proof.
  intros Hprefix Hid. unfold statusUpdate. rewrite Hprefix, Hid.
  destruct (statusUpdate_try _ _ _ _) as [s' [|e']]; cbn [fst snd]; (split; [done|]).
  - intros e [=].
  - intros e _. sched_simpl. split; [set_solver|]. by eexists.
Qed.

(** C7: a status update that reports [TASK_FINISHED] for an execution the
    registry holds calls [task_complete] once, with results whose exit
    code is 0 when the status carries none and the exit code of the
    status otherwise. *)
Theorem statusUpdate_finished_exit_code s status now job_exe_id exe :
  String.prefix CLEANUP_TASK_ID_PREFIX (task_id status) = false →
  state status = TASK_FINISHED →
  get_job_exe_id (task_id status) = Ok job_exe_id →
  get_job_exe_raises job_exe_id = None →
  running s !! job_exe_id = Some exe →
  filter is_task_complete (new_calls s (statusUpdate s status now).1)
  = [exe_task_complete job_exe_id
       (mk_results (task_id status)
                   (match exit_code status with
                    | None => Some 0
                    | Some code => Some code
                    end)
                   (timestamp status))]
  ∧ (is_finished
       (task_complete exe
          (mk_results (task_id status)
                      (match exit_code status with
                       | None => Some 0
                       | Some code => Some code
                       end)
                      (timestamp status))).1 = false →
     running (statusUpdate s status now).1 !! job_exe_id
     = Some (task_complete exe
               (mk_results (task_id status)
                           (match exit_code status with
                            | None => Some 0
                            | Some code => Some code
                            end)
                           (timestamp status))).1).
Proof.
  intros Hprefix Hstate Hid Hraises Hexe. unfold statusUpdate, statusUpdate_try.
  rewrite Hprefix, Hid, Hraises. sched_simpl. rewrite Hexe.
  unfold apply_status_update. rewrite Hstate. cbn [r_exit_code r_task_id r_when].
  assert (match exit_code status with
          | Some _ => mk_results (task_id status) (exit_code status) (timestamp status)
          | None => mk_results (task_id status) (Some 0) (timestamp status)
          end
          = mk_results (task_id status)
              (match exit_code status with None => Some 0 | Some code => Some code end)
              (timestamp status)) as -> by (by destruct (exit_code status)).
  destruct (task_complete exe _) as [exe' out]. cbn [fst snd].
  destruct out as [|e]; unfold remove_if_finished.
  - destruct (is_finished exe'); cbn [fst snd]; sched_simpl.
    + split; [|done].
      erewrite new_calls_app by (sched_simpl; rewrite <- !app_assoc; reflexivity).
      reflexivity.
    + split.
      * erewrite new_calls_app by (sched_simpl; rewrite <- !app_assoc; reflexivity).
        reflexivity.
      * intros _. rewrite lookup_alter, decide_True by done. by rewrite Hexe.
  - cbn [fst snd]; sched_simpl. split.
    + erewrite new_calls_app by (sched_simpl; rewrite <- !app_assoc; reflexivity).
      reflexivity.
    + intros _. rewrite lookup_alter, decide_True by done. by rewrite Hexe.
Qed.

(** C2: [slaveLost] calls [execution_lost] on every execution the
    registry reports for the lost node, in turn.  When each of these calls
    returns or fails on the database, the callback returns; the task ids
    added to the reconciliation set are the current task ids of the
    executions whose call failed, and no others; and every execution that
    is finished after its call, failed or not, is removed from the
    registry and handed to the cleanup manager. *)
Theorem slaveLost_fails_executions s agent_id started :
  Forall (lost_or_database_error started) (executions_on_lost_node s agent_id) →
  (slaveLost s agent_id started).2 = Returned
  ∧ filter is_execution_lost (new_calls s (slaveLost s agent_id started).1)
    = (λ p, exe_execution_lost p.1 started) <$> executions_on_lost_node s agent_id
  ∧ recon (slaveLost s agent_id started).1
    = recon s ∪ list_to_set (omap (task_to_reconcile started) (executions_on_lost_node s agent_id))
  ∧ Forall (λ p, is_finished (execution_lost p.2 started).1 = true →
                 running_remove_job_exe (exe_id (execution_lost p.2 started).1)
                   ∈ new_calls s (slaveLost s agent_id started).1
                 ∧ (execution_lost p.2 started).1 ∈ cleanup (slaveLost s agent_id started).1
                 ∧ running (slaveLost s agent_id started).1
                     !! exe_id (execution_lost p.2 started).1 = None)
           (executions_on_lost_node s agent_id).
Proof.
  unfold executions_on_lost_node, slaveLost.
  destruct (nodes s !! agent_id) as [node|]; intros Hok.
  - set (s0 := log (running_get_job_exes_on_node (node_id node))
                 (log (offer_lost_node agent_id) (lost_node agent_id s))).
    change (get_job_exes_on_node (log (offer_lost_node agent_id) (lost_node agent_id s))
              (node_id node))
      with (get_job_exes_on_node s (node_id node)).
    destruct (slaveLost_loop_spec (get_job_exes_on_node s (node_id node)) started s0 Hok)
      as (Hret & Hrecon & _ & l & c & Hcalls & Hclean & Hfilter & _ & Hfin).
    assert (new_calls s (slaveLost_loop (get_job_exes_on_node s (node_id node)) started s0).1
            = [node_lost_node agent_id; offer_lost_node agent_id;
               running_get_job_exes_on_node (node_id node)] ++ l) as Hnew.
    { apply new_calls_app. rewrite Hcalls. subst s0. sched_simpl.
      by rewrite <- !app_assoc. }
    split; [done|]. split; [by rewrite Hnew|]. split; [done|].
    eapply Forall_impl; [exact Hfin|]. cbn beta. intros p Hp Hf.
    destruct (Hp Hf) as (H1 & H2 & H3). split; [|split]; [| |done].
    + rewrite Hnew. apply elem_of_app. by right.
    + rewrite Hclean. apply elem_of_app. by right.
  - cbn [fst snd]. split; [done|]. split.
    + by erewrite new_calls_app by (sched_simpl; rewrite <- !app_assoc; reflexivity).
    + split; [|constructor]. sched_simpl. cbn [omap list_omap].
      by rewrite list_to_set_nil, (right_id_L ∅ (∪)).
Qed.

End SchedulerLemmas.

(** ** The scenarios of the scheduler *)

Section SchedulerScenarios.
Import ScaleScheduler SchedulerSpec Fixture.

Lemma slaveLost_fails_executions_witness :
  (slaveLost s0 "a1" 100).2 = Returned
  ∧ recon (slaveLost s0 "a1" 100).1 = {["t1"; "t2"]} ∪ {["t1"]}.
Proof.
  destruct (slaveLost_fails_executions s0 "a1" 100) as (Hret & _ & Hrecon & _).
  { apply (bool_decide_unpack _). vm_compute. exact I. }
  split; [exact Hret|]. rewrite Hrecon. vm_compute. reflexivity.
Defined.

Lemma statusUpdate_unknown_execution_witness :
  filter is_handle_job_failure
    (new_calls s0 (statusUpdate s0 (mk_status "t9" TASK_RUNNING None 5) 100).1)
  = [queue_handle_job_failure 9 100 [] (mk_error "scheduler-lost")].
Proof.
  apply (statusUpdate_unknown_execution s0 (mk_status "t9" TASK_RUNNING None 5) 100 9);
    reflexivity.
Defined.

Lemma statusUpdate_catches_exceptions_witness :
  (statusUpdate s0 (mk_status "t1" TASK_FAILED None 5) 100).2 = Returned
  ∧ "t1" ∈ recon (statusUpdate s0 (mk_status "t1" TASK_FAILED None 5) 100).1.
Proof.
  destruct (statusUpdate_catches_exceptions s0 (mk_status "t1" TASK_FAILED None 5) 100 1)
    as [Hret Hraise]; [reflexivity|reflexivity|].
  split; [exact Hret|]. apply (Hraise DatabaseError). vm_compute. reflexivity.
Defined.

Lemma statusUpdate_finished_exit_code_witness :
  filter is_task_complete
    (new_calls s0 (statusUpdate s0 (mk_status "t2" TASK_FINISHED None 5) 100).1)
  = [exe_task_complete 2 (mk_results "t2" (Some 0) 5)].
Proof.
  apply (statusUpdate_finished_exit_code s0 (mk_status "t2" TASK_FINISHED None 5) 100 2 e2);
    reflexivity.
Defined.

Lemma only_statusUpdate_removes_task_ids_witness :
  recon s0 ⊆ recon (run s0 (slaveLost_cb "a1" 100)).1.
Proof.
  destruct (only_statusUpdate_removes_task_ids s0) as [_ H].
  apply (H (slaveLost_cb "a1" 100)). intros status now. discriminate.
Defined.

End SchedulerScenarios.

(** * Further properties *)

(** ** Dictionaries filled and emptied by a loop *)

Section DictLoops.
Context `{Countable K} {V : Type}.
Implicit Types d : gmap K V.

(** [for x in l: d[key(x)] = x] *)
Lemma foldl_insert_lookup (key : V → K) (l : list V) d k :
  foldl (λ d x, <[key x := x]> d) d l !! k =
  match last (filter (λ x, key x = k) l) with
  | Some x => Some x
  | None => d !! k
  end.
Proof.
  revert d. induction l as [|x l IH]; intros d; simpl; [done|].
  rewrite IH, filter_cons. destruct (decide (key x = k)) as [<-|Hne].
  - rewrite last_cons, lookup_insert_eq. by destruct (last _).
  - by rewrite lookup_insert_ne.
Qed.

(** [for k in ks: if k in d: del d[k]] *)
Lemma foldl_delete_lookup (ks : list K) d k :
  foldl (λ d i, match d !! i with Some _ => delete i d | None => d end) d ks !! k =
  if decide (k ∈ ks) then None else d !! k.
Proof.
  revert d. induction ks as [|i ks IH]; intros d; cbn [foldl].
  - rewrite decide_False; [done|]. apply not_elem_of_nil.
  - rewrite IH. destruct (decide (k = i)) as [->|Hne].
    + rewrite (decide_True (P := i ∈ i :: ks)) by left.
      case_decide; [done|]. destruct (d !! i) eqn:E; [apply lookup_delete_eq|done].
    + rewrite decide_elem_of_cons_ne by done. case_decide; [done|].
      destruct (d !! i); [by rewrite lookup_delete_ne|done].
Qed.

End DictLoops.

(** ** The resource manager, continued *)

Section ManagerExtras.
Import ResourceManager.

(** X1: After [add_new_offers] the buffer holds, under each offer id of the
    call, the last offer of the call with that id; every other pending
    offer is as before, and the ledgers and the time of the last reset
    are untouched. *)
Theorem add_new_offers_lookup m offers k :
  _new_offers (add_new_offers m offers) !! k
  = match last (filter (λ o, ResourceOffer.id o = k) offers) with
    | Some o => Some o
    | None => _new_offers m !! k
    end
  ∧ _agent_resources (add_new_offers m offers) = _agent_resources m
  ∧ _last_watermark_reset (add_new_offers m offers) = _last_watermark_reset m.
Proof.
  split; [|done]. unfold add_new_offers. cbn [_new_offers]. apply foldl_insert_lookup.
Qed.

(** X2: Offers that are added under ids that were not pending and then
    removed by these ids leave the buffer as it was. *)
Theorem add_then_remove_offers m offers :
  Forall (λ o, _new_offers m !! ResourceOffer.id o = None) offers →
  _new_offers (remove_offers (add_new_offers m offers) (ResourceOffer.id <$> offers))
  = _new_offers m.
Proof.
  intros Hfresh. apply map_eq. intros k. unfold remove_offers, add_new_offers.
  cbn [_new_offers]. rewrite foldl_delete_lookup, foldl_insert_lookup.
  case_decide as Hin.
  - apply list_elem_of_fmap in Hin as (o & -> & Ho).
    rewrite Forall_forall in Hfresh. symmetry. by apply Hfresh.
  - rewrite (filter_none (λ o, ResourceOffer.id o = k)); [done|].
    apply Forall_forall. intros o Ho Hid. apply Hin. apply list_elem_of_fmap. eauto.
Qed.

Lemma add_then_remove_offers_witness :
  _new_offers (remove_offers (add_new_offers init [o1]) (ResourceOffer.id <$> [o1]))
  = _new_offers init.
Proof.
  apply (add_then_remove_offers init [o1]).
  apply (bool_decide_unpack _). vm_compute. exact I.
Defined.

(** X3: Two calls of [remove_offers] in a row do what one call with both
    lists of ids does. *)
Theorem remove_offers_compose m ids1 ids2 :
  remove_offers (remove_offers m ids1) ids2 = remove_offers m (ids1 ++ ids2).
Proof.
  unfold remove_offers. cbn [_agent_resources _last_watermark_reset _new_offers].
  rewrite foldl_app. f_equal.
  rewrite <- map_fmap_compose. apply map_fmap_ext. intros k ar _.
  unfold AgentResources.remove_offers. cbn. f_equal.
  rewrite list_filter_filter. apply list_filter_iff. intros o.
  rewrite elem_of_app. tauto.
Qed.

(** X4: [lost_agent] on a well-formed manager touches the lost agent only:
    the ledgers of the other agents are as before, a pending offer of
    another agent is still pending, and nothing is pending that was not
    before. *)
Theorem lost_agent_keeps_other_agents m a :
  wf m →
  (∀ b, b ≠ a →
        _agent_resources (lost_agent m a).1 !! b = _agent_resources m !! b)
  ∧ (∀ k o, _new_offers m !! k = Some o → ResourceOffer.agent_id o ≠ a →
            _new_offers (lost_agent m a).1 !! k = Some o)
  ∧ (∀ k o, _new_offers (lost_agent m a).1 !! k = Some o → _new_offers m !! k = Some o)
  ∧ _last_watermark_reset (lost_agent m a).1 = _last_watermark_reset m.
Proof.
  intros Hwf. destruct (lost_agent_returns m a Hwf) as (d' & -> & Hd'). cbn.
  split; [|split; [|split]]; [| | |done].
  - intros b Hb. by rewrite lookup_delete_ne.
  - intros k o Hk Ho. rewrite Hd', Hk. by rewrite decide_False.
  - intros k o. rewrite Hd'. destruct (_new_offers m !! k) as [o'|]; [|done].
    by case_decide.
Qed.

Lemma lost_agent_keeps_other_agents_witness :
  _new_offers (lost_agent (add_new_offers init [o1]) "a2").1 !! "o1" = Some o1.
Proof.
  assert (wf (add_new_offers init [o1])) as Hwf.
  { apply (bool_decide_unpack _). vm_compute. exact I. }
  destruct (lost_agent_keeps_other_agents (add_new_offers init [o1]) "a2" Hwf)
    as (_ & Hkeep & _).
  apply Hkeep; [reflexivity|]. vm_compute. discriminate.
Defined.

(** X5: On every manager that the constructor and the methods can build, the
    pending offers are stored under their own ids and the ledgers under
    their own agent ids, so that [lost_agent] finds every offer it deletes:
    it returns and never raises [KeyError]. *)
Theorem lost_agent_never_raises m a :
  reachable m → wf m ∧ (lost_agent m a).2 = Returned.
Proof.
  intros Hwf%reachable_wf. split; [done|].
  by destruct (lost_agent_returns m a Hwf) as (d' & -> & _).
Qed.

Lemma lost_agent_never_raises_witness :
  wf (remove_offers (add_new_offers init [o1]) ["o2"])
  ∧ (lost_agent (remove_offers (add_new_offers init [o1]) ["o2"]) "a1").2 = Returned.
Proof.
  apply lost_agent_never_raises.
  apply reach_remove_offers, reach_add_new_offers, reach_init.
Defined.

(** X6: Whatever calls came before, the time of the last watermark reset is
    unset, and [refresh_agent_resources] raises [TypeError] on every call,
    not on the first one only: the failing call does not set the time
    either. *)
Theorem refresh_agent_resources_always_raises m tasks when :
  reachable m →
  _last_watermark_reset m = None
  ∧ (refresh_agent_resources m tasks when).2 = Raised TypeError
  ∧ reachable (refresh_agent_resources m tasks when).1.
Proof.
  intros Hm. split; [by apply reachable_last_watermark_reset|].
  split; [by apply refresh_agent_resources_raises|by constructor].
Qed.

Lemma refresh_agent_resources_always_raises_witness :
  (refresh_agent_resources
     (add_new_offers (refresh_agent_resources (add_new_offers init [o1]) [t1] 0).1 [o1])
     [t1] 600).2 = Raised TypeError.
Proof.
  apply refresh_agent_resources_always_raises.
  apply reach_add_new_offers, reach_refresh, reach_add_new_offers, reach_init.
Defined.

(** X7: [generate_status_json] reads the ledgers of the agents that
    [status_dict['nodes']] names and no others: two managers that agree on
    these ledgers give the same status, whatever other agents they know.
    In particular an agent that no node entry names adds nothing to the
    totals. *)
Theorem generate_status_json_listed_agents m m' status :
  Forall (λ n, _agent_resources m !! nd_agent_id n = _agent_resources m' !! nd_agent_id n)
         (sd_nodes status) →
  generate_status_json m status = generate_status_json m' status.
Proof.
  intros Hagree. unfold generate_status_json.
  assert (∀ tot, status_nodes (_agent_resources m) (sd_nodes status) tot
                 = status_nodes (_agent_resources m') (sd_nodes status) tot) as ->; [|done].
  induction Hagree as [|n nodes Hn _ IH]; intros tot; simpl; [done|].
  rewrite <- Hn. destruct (_agent_resources m !! nd_agent_id n) as [ar|].
  - destruct (AgentResources.generate_status_json ar tot) as [st tot1]. by rewrite IH.
  - by rewrite IH.
Qed.

Lemma generate_status_json_listed_agents_witness :
  generate_status_json (refresh_agent_resources (add_new_offers init [o1]) [] 0).1
                       (mk_status_dict [mk_node "a2" None] None)
  = generate_status_json init (mk_status_dict [mk_node "a2" None] None).
Proof.
  apply generate_status_json_listed_agents.
  apply (bool_decide_unpack _). vm_compute. exact I.
Defined.

(** X8: [generate_status_json] keeps the node entries in number and order,
    leaves the entry of an agent without a ledger as it was, and always
    writes the three totals, replacing those of an earlier status. *)
Theorem generate_status_json_nodes m status :
  nd_agent_id <$> sd_nodes (generate_status_json m status) = nd_agent_id <$> sd_nodes status
  ∧ (∀ i n, sd_nodes status !! i = Some n →
            _agent_resources m !! nd_agent_id n = None →
            sd_nodes (generate_status_json m status) !! i = Some n)
  ∧ (∀ i n, sd_nodes status !! i = Some n →
            is_Some (_agent_resources m !! nd_agent_id n) →
            ∃ st, sd_nodes (generate_status_json m status) !! i
                  = Some (mk_node (nd_agent_id n) (Some st)))
  ∧ is_Some (sd_resources (generate_status_json m status)).
Proof.
  unfold generate_status_json.
  assert (∀ nodes tot,
            nd_agent_id <$> (status_nodes (_agent_resources m) nodes tot).1 = nd_agent_id <$> nodes
            ∧ (∀ i n, nodes !! i = Some n →
                 _agent_resources m !! nd_agent_id n = None →
                 (status_nodes (_agent_resources m) nodes tot).1 !! i = Some n)
            ∧ (∀ i n, nodes !! i = Some n →
                 is_Some (_agent_resources m !! nd_agent_id n) →
                 ∃ st, (status_nodes (_agent_resources m) nodes tot).1 !! i
                       = Some (mk_node (nd_agent_id n) (Some st)))) as Hloop.
  { induction nodes as [|n nodes IH]; intros tot; cbn [status_nodes].
    { split; [done|]. split; intros i n; by rewrite lookup_nil. }
    destruct (_agent_resources m !! nd_agent_id n) as [ar|] eqn:Hn.
    - destruct (AgentResources.generate_status_json ar tot) as [st tot1].
      destruct (IH tot1) as (H1 & H2 & H3).
      destruct (status_nodes _ nodes tot1) as [rest' tot2]. cbn [fst] in *.
      split; [by rewrite !fmap_cons, H1|]. split.
      + intros [|i] n'; cbn; [|by apply H2]. intros [= <-]. by rewrite Hn.
      + intros [|i] n'; cbn; [|by apply H3]. intros [= <-] _. by exists st.
    - destruct (IH tot) as (H1 & H2 & H3).
      destruct (status_nodes _ nodes tot) as [rest' tot2]. cbn [fst] in *.
      split; [by rewrite !fmap_cons, H1|]. split.
      + intros [|i] n'; cbn; [|by apply H2]. by intros [= <-].
      + intros [|i] n'; cbn; [|by apply H3]. intros [= <-]. rewrite Hn.
        by intros [? [=]]. }
  specialize (Hloop (sd_nodes status)
    (AgentResources.mk_totals NodeResources.zero NodeResources.zero NodeResources.zero)).
  destruct (status_nodes _ _ _) as [nodes tot]. simpl in *.
  destruct Hloop as (H1 & H2 & H3). by repeat split.
Qed.

(** X9: A call of [set_agent_shortages] replaces the shortages of an earlier
    call, it does not merge with them: an agent the later dict does not
    name ends without a shortage.  On a well-formed manager the shortage
    of every agent is the entry of the dict for it, if there is one. *)
Theorem set_agent_shortages_replaces m shortages1 shortages2 :
  set_agent_shortages (set_agent_shortages m shortages1) shortages2
  = set_agent_shortages m shortages2
  ∧ (wf m →
     ∀ a ar, _agent_resources (set_agent_shortages m shortages2) !! a = Some ar →
             AgentResources.shortage ar = shortages2 !! a).
Proof.
  split.
  - unfold set_agent_shortages. cbn [_agent_resources _last_watermark_reset _new_offers].
    f_equal. rewrite <- map_fmap_compose. by apply map_fmap_ext.
  - intros [_ Ha] a ar. unfold set_agent_shortages. cbn [_agent_resources].
    rewrite lookup_fmap. destruct (_agent_resources m !! a) as [ar0|] eqn:E; [|done].
    intros [= <-]. cbn. by rewrite (Ha _ _ E).
Qed.

Lemma set_agent_shortages_replaces_witness :
  AgentResources.shortage
    <$> _agent_resources
          (set_agent_shortages (refresh_agent_resources (add_new_offers init [o1]) [] 0).1
                               {["a1" := NodeResources.mk 1 0 0]}) !! "a1"
  = Some (({["a1" := NodeResources.mk 1 0 0]} : gmap string NodeResources.t) !! "a1").
Proof.
  assert (wf (refresh_agent_resources (add_new_offers init [o1]) [] 0).1) as Hwf.
  { apply (bool_decide_unpack _). vm_compute. exact I. }
  assert (_agent_resources
            (set_agent_shortages (refresh_agent_resources (add_new_offers init [o1]) [] 0).1
                                 {["a1" := NodeResources.mk 1 0 0]}) !! "a1"
          = Some (AgentResources.mk "a1" [o1] NodeResources.zero NodeResources.zero
                    (NodeResources.mk 4 1024 0) (Some (NodeResources.mk 1 0 0)))) as Hl
    by (vm_compute; reflexivity).
  rewrite Hl. cbn [fmap option_fmap option_map]. apply (f_equal Some).
  exact (proj2 (set_agent_shortages_replaces
                  (refresh_agent_resources (add_new_offers init [o1]) [] 0).1 ∅
                  {["a1" := NodeResources.mk 1 0 0]}) Hwf "a1" _ Hl).
Defined.

End ManagerExtras.

(** ** The job type manager *)

Section JobTypes.
Import JobTypeManager.

Lemma sync_with_database_get self rows k :
  get_job_type (sync_with_database self (ScaleScheduler.Ok rows)).1 k
  = last (filter (λ job_type, JobType.id job_type = k) rows).
Proof.
  unfold get_job_type, sync_with_database. cbn.
  rewrite (foldl_insert_lookup JobType.id). rewrite lookup_empty.
  by destruct (last _).
Qed.

(** X10: After a sync that the database answers, [get_job_type] gives for each
    id the last row of the answer with that id, and [None] when no row has
    it: what the manager held before is dropped, and no job type is stored
    under an id other than its own.  [get_job_types] gives the same
    dict. *)
Theorem sync_with_database_lookup self rows k :
  (sync_with_database self (ScaleScheduler.Ok rows)).2 = Returned
  ∧ get_job_type (sync_with_database self (ScaleScheduler.Ok rows)).1 k
    = last (filter (λ job_type, JobType.id job_type = k) rows)
  ∧ get_job_types (sync_with_database self (ScaleScheduler.Ok rows)).1 !! k
    = get_job_type (sync_with_database self (ScaleScheduler.Ok rows)).1 k
  ∧ (∀ job_type,
       get_job_type (sync_with_database self (ScaleScheduler.Ok rows)).1 k = Some job_type →
       JobType.id job_type = k).
Proof.
  pose proof (sync_with_database_get self rows k) as Hget.
  split; [done|]. split; [done|]. split; [done|].
  intros job_type. rewrite Hget. intros Hlast%last_Some_elem_of.
  by apply list_elem_of_filter in Hlast as [? _].
Qed.

(** X11: When the rows of the database have distinct ids, the status lists
    one entry per row: the entries are those of the rows, in some order,
    and they replace the list of an earlier status. *)
Theorem generate_status_json_job_types self rows status_dict :
  NoDup (JobType.id <$> rows) →
  ∃ entries,
    generate_status_json (sync_with_database self (ScaleScheduler.Ok rows)).1 status_dict
      !! "job_types" = Some entries
    ∧ entries ≡ₚ job_type_dict_of <$> rows.
Proof.
  intros Hnd. eexists. split; [apply lookup_insert_eq|].
  apply fmap_Permutation. unfold int_values, sync_with_database. cbn.
  assert (foldl (λ d job_type, <[JobType.id job_type := job_type]> d) ∅ rows
          = list_to_map ((λ job_type, (JobType.id job_type, job_type)) <$> rows)) as ->.
  { apply map_eq. intros k. rewrite (foldl_insert_lookup JobType.id), lookup_empty.
    clear self status_dict. induction rows as [|r rows IH]; [done|].
    rewrite fmap_cons in Hnd. apply NoDup_cons in Hnd as [Hr Hnd].
    rewrite filter_cons, fmap_cons. cbn [list_to_map foldr]. cbn beta.
    destruct (decide (JobType.id r = k)) as [<-|Hne].
    - rewrite lookup_insert_eq, last_cons.
      rewrite (filter_none (λ job_type, JobType.id job_type = JobType.id r)); [done|].
      apply Forall_forall. intros r' Hr' Heq. apply Hr. rewrite <- Heq.
      apply list_elem_of_fmap. eauto.
    - rewrite lookup_insert_ne by done. by apply IH. }
  assert (NoDup ((λ job_type, (JobType.id job_type, job_type)) <$> rows).*1) as Hnd'.
  { by rewrite <- list_fmap_compose. }
  rewrite (map_to_list_to_map _ Hnd'). rewrite <- list_fmap_compose. cbn.
  by rewrite list_fmap_id.
Qed.

End JobTypes.

(** ** The scheduler, continued *)

Section SchedulerExtras.
Import ScaleScheduler SchedulerSpec SchedulerObservations.
Context {E : Type} `{!Collaborators E}.
Implicit Types s : t E.

Ltac sched_cbn :=
  cbn [recon running cleanup nodes calls log mutate add_task_ids remove_task_id
       remove_job_exe add_job_execution lost_node fst snd] in *.

Lemma new_calls_app' s s' l : calls s' = calls s ++ l → new_calls s s' = l.
Proof. unfold new_calls. intros ->. by rewrite drop_app_length. Qed.

(** *** [resourceOffers] *)

Lemma node_resources_fold (resources : list Resource) (disk mem cpus : Z) :
  foldl (λ '(disk, mem, cpus) resource,
           if decide (name resource = "disk") then (scalar_value resource, mem, cpus)
           else if decide (name resource = "mem") then (disk, scalar_value resource, cpus)
           else if decide (name resource = "cpus") then (disk, mem, scalar_value resource)
           else (disk, mem, cpus))
        (disk, mem, cpus) resources
  = (default disk (scalar_value <$> last (filter (λ r, name r = "disk") resources)),
     default mem (scalar_value <$> last (filter (λ r, name r = "mem") resources)),
     default cpus (scalar_value <$> last (filter (λ r, name r = "cpus") resources))).
Proof.
  revert disk mem cpus. induction resources as [|r rs IH]; intros disk mem cpus; [done|].
  cbn [foldl]. rewrite !filter_cons.
  destruct (decide (name r = "disk")) as [Hd|Hd];
    [|destruct (decide (name r = "mem")) as [Hm|Hm];
      [|destruct (decide (name r = "cpus")) as [Hc|Hc]]];
    rewrite IH; rewrite ?Hd, ?Hm, ?Hc;
    repeat (rewrite decide_False by done); repeat (rewrite decide_True by done);
    rewrite ?last_cons; repeat destruct (last _); done.
Qed.

(** X12: The resources that [resourceOffers] reads from a Mesos offer: for
    each of cpus, mem and disk the scalar of the last resource of that
    name, 0 when there is none; resources of other names are ignored. *)
Theorem node_resources_of_last_scalar (resources : list Resource) :
  node_resources_of resources
  = NodeResources.mk (last_scalar "cpus" resources) (last_scalar "mem" resources)
                     (last_scalar "disk" resources).
Proof. unfold node_resources_of. by rewrite node_resources_fold. Qed.

(** *** [statusUpdate] *)

Lemma apply_status_update_transition j exe status s :
  apply_status_update j exe status (parsed_results status) s
  = (mk (recon s) (running s) (cleanup s) (nodes s) (calls s ++ transition_call j status),
     (transition exe status).1, (transition exe status).2).
Proof.
  unfold apply_status_update, transition, transition_call, finished_results, parsed_results.
  cbn [r_exit_code r_task_id r_when].
  destruct (state status); try (by destruct s; rewrite app_nil_r);
    try (by match goal with |- context [let '(_, _) := ?x in _] => destruct x end).
  destruct (exit_code status); cbn [from_option id];
    by match goal with |- context [let '(_, _) := ?x in _] => destruct x end.
Qed.

(** A status update of a task of an execution that the registry holds. *)
Lemma statusUpdate_known s status now j exe :
  String.prefix CLEANUP_TASK_ID_PREFIX (task_id status) = false →
  get_job_exe_id (task_id status) = Ok j →
  get_job_exe_raises j = None →
  running s !! j = Some exe →
  statusUpdate s status now =
  (let s1 := mk (recon s ∖ {[task_id status]})
                (alter (λ _, (transition exe status).1) j (running s))
                (cleanup s) (nodes s)
                (calls s ++ [recon_remove_task_id (task_id status);
                             task_update_add_status_update status;
                             running_get_job_exe j] ++ transition_call j status) in
   match (transition exe status).2 with
   | Returned => (remove_if_finished j (transition exe status).1 s1, Returned)
   | Raised _ => (add_task_ids [task_id status] s1, Returned)
   end).
Proof.
  intros Hprefix Hid Hraises Hexe. unfold statusUpdate, statusUpdate_try.
  rewrite Hprefix, Hid, Hraises. sched_cbn. rewrite Hexe.
  change (mk_results (task_id status) (exit_code status) (timestamp status))
    with (parsed_results status).
  rewrite apply_status_update_transition. sched_cbn.
  rewrite <- !app_assoc. cbn [app].
  by destruct (transition exe status) as [exe' [|e]].
Qed.

Lemma filter_transition_call j status :
  filter is_transition (transition_call j status) = transition_call j status.
Proof. unfold transition_call. by destruct (state status). Qed.

(** X13: A status update for a running execution makes one call on the
    execution, chosen by the reported state, and no other: [task_start]
    for RUNNING, [task_complete] for FINISHED, [task_lost] for LOST,
    [task_fail] for ERROR, FAILED and KILLED, with the exit code as it was
    parsed (a missing one is not replaced by 0 there), and none for
    STAGING and STARTING. *)
Theorem statusUpdate_dispatch s status now job_exe_id exe :
  String.prefix CLEANUP_TASK_ID_PREFIX (task_id status) = false →
  get_job_exe_id (task_id status) = Ok job_exe_id →
  get_job_exe_raises job_exe_id = None →
  running s !! job_exe_id = Some exe →
  filter is_transition (new_calls s (statusUpdate s status now).1)
  = transition_call job_exe_id status.
Proof.
  intros Hprefix Hid Hraises Hexe.
  rewrite (statusUpdate_known s status now job_exe_id exe) by done. cbn zeta.
  destruct (transition exe status) as [exe' [|e]]; cbn [fst snd]; unfold remove_if_finished;
    try destruct (is_finished exe');
    erewrite new_calls_app' by (sched_cbn; rewrite <- ?app_assoc; reflexivity);
    rewrite !filter_app, filter_transition_call, !filter_cons, !filter_nil;
    repeat (rewrite decide_False by (cbn; tauto));
    by rewrite ?app_nil_r.
Qed.

(** X14: What a status update does with the execution once the call on it is
    over.  When the call returned and the execution is finished, the
    execution leaves the registry and goes to the cleanup manager, and
    otherwise it stays, as the call left it; the task id is out of the
    reconciliation set.  When the call raised, the execution stays in the
    registry even if it is finished, nothing goes to cleanup, and the task
    id is back in the reconciliation set. *)
Theorem statusUpdate_finished_execution s status now job_exe_id exe :
  String.prefix CLEANUP_TASK_ID_PREFIX (task_id status) = false →
  get_job_exe_id (task_id status) = Ok job_exe_id →
  get_job_exe_raises job_exe_id = None →
  running s !! job_exe_id = Some exe →
  match (transition exe status).2 with
  | Returned =>
      recon (statusUpdate s status now).1 = recon s ∖ {[task_id status]}
      ∧ if is_finished (transition exe status).1
        then running (statusUpdate s status now).1 !! job_exe_id = None
             ∧ cleanup (statusUpdate s status now).1 = cleanup s ++ [(transition exe status).1]
        else running (statusUpdate s status now).1 !! job_exe_id
             = Some (transition exe status).1
             ∧ cleanup (statusUpdate s status now).1 = cleanup s
  | Raised _ =>
      task_id status ∈ recon (statusUpdate s status now).1
      ∧ running (statusUpdate s status now).1 !! job_exe_id = Some (transition exe status).1
      ∧ cleanup (statusUpdate s status now).1 = cleanup s
  end.
Proof.
  intros Hprefix Hid Hraises Hexe.
  rewrite (statusUpdate_known s status now job_exe_id exe) by done. cbn zeta.
  destruct (transition exe status) as [exe' [|e]]; cbn [fst snd]; unfold remove_if_finished.
  - split; [by destruct (is_finished exe')|].
    destruct (is_finished exe'); sched_cbn.
    + split; [apply lookup_delete_eq|done].
    + split; [|done]. rewrite lookup_alter, decide_True by done. by rewrite Hexe.
  - sched_cbn. split; [|split; [|done]].
    + apply elem_of_union_r. rewrite list_to_set_cons. apply elem_of_union_l.
      by apply elem_of_singleton.
    + rewrite lookup_alter, decide_True by done. by rewrite Hexe.
Qed.

(** X15: A status update whose task id does not name a job execution: the
    exception of [get_job_exe_id] leaves the callback, since the call
    stands before the [try]; the task id is out of the reconciliation set
    and is not put back, and the registry is not touched. *)
Theorem statusUpdate_unparsable_task_id s status now e :
  String.prefix CLEANUP_TASK_ID_PREFIX (task_id status) = false →
  get_job_exe_id (task_id status) = Err e →
  (statusUpdate s status now).2 = Raised e
  ∧ recon (statusUpdate s status now).1 = recon s ∖ {[task_id status]}
  ∧ running (statusUpdate s status now).1 = running s
  ∧ cleanup (statusUpdate s status now).1 = cleanup s
  ∧ new_calls s (statusUpdate s status now).1
    = [recon_remove_task_id (task_id status); task_update_add_status_update status].
Proof.
  intros Hprefix Hid. unfold statusUpdate. rewrite Hprefix, Hid. sched_cbn.
  repeat split. apply new_calls_app'. sched_cbn. by rewrite <- app_assoc.
Qed.

(** *** [_reconcile_running_jobs] *)

Lemma reconcile_loop_spec job_exes now task_ids s :
  recon (reconcile_loop job_exes now task_ids s).1.1 = recon s
  ∧ running (reconcile_loop job_exes now task_ids s).1.1 = running s
  ∧ cleanup (reconcile_loop job_exes now task_ids s).1.1 = cleanup s
  ∧ nodes (reconcile_loop job_exes now task_ids s).1.1 = nodes s
  ∧ ∃ l, calls (reconcile_loop job_exes now task_ids s).1.1 = calls s ++ l
         ∧ Forall (λ c, ¬ is_recon_add c) l
         ∧ (Forall (λ j, get_job_exe_raises j = None) job_exes →
            Forall (λ j, running s !! j = None → handle_job_failure_raises j = None) job_exes →
            (reconcile_loop job_exes now task_ids s).2 = Returned
            ∧ (reconcile_loop job_exes now task_ids s).1.2
              = task_ids ++ held_task_ids s job_exes
            ∧ filter is_handle_job_failure l
              = (λ j, queue_handle_job_failure j now [] (mk_error "scheduler-lost"))
                  <$> lost_job_exes s job_exes).
Proof.
  revert task_ids s. induction job_exes as [|j job_exes IH]; intros task_ids s;
    cbn [reconcile_loop].
  { repeat split. exists []. rewrite !app_nil_r. repeat split; constructor. }
  unfold held_task_ids, lost_job_exes. rewrite filter_cons. cbn [omap list_omap].
  sched_cbn.
  destruct (get_job_exe_raises j) as [e|] eqn:Hj.
  { sched_cbn. repeat split. exists [running_get_job_exe j]. split; [done|].
    split; [repeat constructor; cbn; tauto|]. intros Hr _. apply Forall_cons in Hr as [Hr _].
    congruence. }
  destruct (running s !! j) as [exe|] eqn:Hexe.
  - destruct (IH (match current_task exe with
                  | Some task => task_ids ++ [task]
                  | None => task_ids
                  end) (log (running_get_job_exe j) s))
      as (Hrecon & Hrun & Hclean & Hnodes & l & Hcalls & Hl & Hok).
    sched_cbn. split; [done|]. split; [done|]. split; [done|]. split; [done|].
    exists (running_get_job_exe j :: l). split; [by rewrite Hcalls, <- app_assoc|].
    split; [constructor; [cbn; tauto|done]|].
    intros Hr Hf. apply Forall_cons in Hr as [_ Hr]. apply Forall_cons in Hf as [_ Hf].
    destruct (Hok Hr Hf) as (Hret & Hids & Hfail). split; [done|].
    rewrite decide_False by (by intros [=]). split.
    + rewrite Hids. unfold held_task_ids. sched_cbn. cbn [mbind option_bind].
      destruct (current_task exe); [by rewrite <- app_assoc|done].
    + rewrite filter_cons, decide_False by (cbn; tauto). exact Hfail.
  - unfold handle_job_failure. cbn [fst snd].
    destruct (handle_job_failure_raises j) as [e|] eqn:Hh.
    { sched_cbn. repeat split.
      exists [running_get_job_exe j;
              queue_handle_job_failure j now [] (get_builtin_error "scheduler-lost")].
      split; [by rewrite <- app_assoc|]. split; [repeat constructor; cbn; tauto|].
      intros _ Hf. apply Forall_cons in Hf as [Hf _]. specialize (Hf Hexe). congruence. }
    destruct (IH task_ids
                (log (queue_handle_job_failure j now [] (get_builtin_error "scheduler-lost"))
                     (log (running_get_job_exe j) s)))
      as (Hrecon & Hrun & Hclean & Hnodes & l & Hcalls & Hl & Hok).
    sched_cbn. split; [done|]. split; [done|]. split; [done|]. split; [done|].
    exists (running_get_job_exe j
            :: queue_handle_job_failure j now [] (get_builtin_error "scheduler-lost") :: l).
    split; [by rewrite Hcalls, <- !app_assoc|].
    split; [repeat (constructor; [cbn; tauto|]); done|].
    intros Hr Hf. apply Forall_cons in Hr as [_ Hr]. apply Forall_cons in Hf as [_ Hf].
    destruct (Hok Hr Hf) as (Hret & Hids & Hfail). split; [done|].
    rewrite decide_True by done. split.
    + rewrite Hids. done.
    + rewrite filter_cons, decide_False by (cbn; tauto).
      rewrite filter_cons, decide_True by (cbn; tauto).
      rewrite fmap_cons. f_equal. exact Hfail.
Qed.

(** X16: When no lookup and no recording of a failure raises,
    [_reconcile_running_jobs] returns.  It has recorded one failure, with
    the error [scheduler-lost] and an empty list, for each execution of
    the database that the registry does not hold, in their order, and
    then handed the current task ids of the executions it holds to the
    reconciliation set in one call, which is its last; the registry is as
    before. *)
Theorem reconcile_running_jobs_returns s job_exes now :
  Forall (λ j, get_job_exe_raises j = None) job_exes →
  Forall (λ j, running s !! j = None → handle_job_failure_raises j = None) job_exes →
  (_reconcile_running_jobs s job_exes now).2 = Returned
  ∧ recon (_reconcile_running_jobs s job_exes now).1
    = recon s ∪ list_to_set (held_task_ids s job_exes)
  ∧ running (_reconcile_running_jobs s job_exes now).1 = running s
  ∧ filter is_handle_job_failure (new_calls s (_reconcile_running_jobs s job_exes now).1)
    = (λ j, queue_handle_job_failure j now [] (mk_error "scheduler-lost"))
        <$> lost_job_exes s job_exes
  ∧ ∃ before, new_calls s (_reconcile_running_jobs s job_exes now).1
              = before ++ [recon_add_task_ids (held_task_ids s job_exes)].
Proof.
  intros Hr Hf. unfold _reconcile_running_jobs.
  destruct (reconcile_loop_spec job_exes now [] s)
    as (Hrecon & Hrun & Hclean & _ & l & Hcalls & Hl & Hok).
  destruct (Hok Hr Hf) as (Hret & Hids & Hfail).
  destruct (reconcile_loop job_exes now [] s) as [[s' ids] out]. cbn [fst snd] in *.
  subst out ids. cbn [fst snd app]. sched_cbn.
  split; [done|]. split; [by rewrite Hrecon|]. split; [done|].
  erewrite new_calls_app' by (sched_cbn; rewrite Hcalls, <- app_assoc; reflexivity).
  split; [|by eexists].
  rewrite filter_app, Hfail, filter_cons, decide_False by (cbn; tauto).
  by rewrite filter_nil, app_nil_r.
Qed.

(** X17: When [_reconcile_running_jobs] raises, it has handed no task id to
    the reconciliation set: the task ids it had collected before the
    exception are dropped with it, and the set and the registry are as
    before. *)
Theorem reconcile_running_jobs_raises s job_exes now e :
  (_reconcile_running_jobs s job_exes now).2 = Raised e →
  recon (_reconcile_running_jobs s job_exes now).1 = recon s
  ∧ running (_reconcile_running_jobs s job_exes now).1 = running s
  ∧ Forall (λ c, ¬ is_recon_add c) (new_calls s (_reconcile_running_jobs s job_exes now).1).
Proof.
  unfold _reconcile_running_jobs.
  destruct (reconcile_loop_spec job_exes now [] s)
    as (Hrecon & Hrun & Hclean & _ & l & Hcalls & Hl & _).
  destruct (reconcile_loop job_exes now [] s) as [[s' ids] [|e']]; cbn [fst snd] in *; [done|].
  intros _. split; [done|]. split; [done|]. by rewrite (new_calls_app' _ _ _ Hcalls).
Qed.

(** *** What no callback does *)

Lemma only_shrinks_refl s : only_shrinks s s.
Proof. by repeat split. Qed.

Lemma only_shrinks_trans s1 s2 s3 :
  only_shrinks s1 s2 → only_shrinks s2 s3 → only_shrinks s1 s3.
Proof.
  intros (H1 & H2 & H3 & H4 & H5) (H1' & H2' & H3' & H4' & H5').
  split; [by etrans|]. split; [by etrans|]. split; [by etrans|]. split; [by etrans|]. lia.
Qed.

Lemma only_shrinks_log c s : only_shrinks s (log c s).
Proof. repeat split; sched_cbn; try done. by apply prefix_app_r. Qed.

Lemma only_shrinks_recon s r : only_shrinks s (mk r (running s) (cleanup s) (nodes s) (calls s)).
Proof. by repeat split. Qed.

Lemma only_shrinks_mutate k exe s : only_shrinks s (mutate k exe s).
Proof.
  repeat split; sched_cbn; try done.
  - by rewrite dom_alter_L.
  - by rewrite <- (size_dom (D := gset Z) (alter _ _ _)), dom_alter_L, size_dom.
Qed.

Lemma only_shrinks_add_task_ids ids s : only_shrinks s (add_task_ids ids s).
Proof. repeat split; sched_cbn; try done. by apply prefix_app_r. Qed.


(** "Remove finished job execution" *)
Lemma only_shrinks_remove_finished k exe s :
  only_shrinks s (add_job_execution exe (remove_job_exe k s)).
Proof.
  repeat split; sched_cbn.
  - apply subseteq_dom, delete_subseteq.
  - done.
  - by apply prefix_app_r.
  - rewrite <- app_assoc. by apply prefix_app_r.
  - rewrite map_size_delete, length_app. cbn [length].
    destruct (running s !! k); cbn; lia.
Qed.





Lemma only_shrinks_slaveLost_exe key exe started s :
  only_shrinks s (slaveLost_exe key exe started s).1.
Proof.
  unfold slaveLost_exe. destruct (execution_lost exe started) as [exe' out].
  assert (only_shrinks s (mutate key exe' (log (exe_execution_lost key started) s))) as H1.
  { eapply only_shrinks_trans; [apply only_shrinks_log|apply only_shrinks_mutate]. }
  assert (∀ s0, only_shrinks s0
            (if is_finished exe'
             then add_job_execution exe' (remove_job_exe (exe_id exe') s0) else s0)) as H2.
  { intros s0.
    destruct (is_finished exe'); [apply only_shrinks_remove_finished|apply only_shrinks_refl]. }
  destruct out as [|[]]; cbn [fst]; try done.
  - eapply only_shrinks_trans; [exact H1|apply H2].
  - eapply only_shrinks_trans; [exact H1|]. eapply only_shrinks_trans; [|apply H2].
    destruct (current_task exe'); [apply only_shrinks_add_task_ids|apply only_shrinks_refl].
Qed.

Lemma only_shrinks_slaveLost_loop exes started s :
  only_shrinks s (slaveLost_loop exes started s).1.
Proof.
  revert s. induction exes as [|[key exe] exes IH]; intros s; cbn [slaveLost_loop].
  - apply only_shrinks_refl.
  - pose proof (only_shrinks_slaveLost_exe key exe started s) as Hstep.
    destruct (slaveLost_exe key exe started s) as [s' [|e]]; cbn [fst] in *; [|done].
    eapply only_shrinks_trans; [exact Hstep|apply IH].
Qed.

Lemma only_shrinks_slaveLost s agent_id started :
  only_shrinks (log (offer_lost_node agent_id) (lost_node agent_id s))
               (slaveLost s agent_id started).1.
Proof.
  unfold slaveLost. destruct (nodes s !! agent_id) as [node|]; [|apply only_shrinks_refl].
  eapply only_shrinks_trans; [|apply only_shrinks_slaveLost_loop]. apply only_shrinks_log.
Qed.



(** *** [slaveLost] *)

(** X19: [slaveLost] first tells the node registry and the offer manager that
    the agent is lost, in this order and whatever follows; the agent is
    out of the node registry afterwards.  For an agent that the node
    registry does not know it does nothing else: no execution is failed
    or removed, whatever the registry of running executions holds. *)
Theorem slaveLost_informs_managers_first s agent_id started :
  (∃ rest, new_calls s (slaveLost s agent_id started).1
           = node_lost_node agent_id :: offer_lost_node agent_id :: rest)
  ∧ nodes (slaveLost s agent_id started).1 !! agent_id = None
  ∧ (nodes s !! agent_id = None →
     (slaveLost s agent_id started).2 = Returned
     ∧ new_calls s (slaveLost s agent_id started).1
       = [node_lost_node agent_id; offer_lost_node agent_id]
     ∧ running (slaveLost s agent_id started).1 = running s
     ∧ cleanup (slaveLost s agent_id started).1 = cleanup s
     ∧ recon (slaveLost s agent_id started).1 = recon s).
Proof.
  destruct (only_shrinks_slaveLost s agent_id started) as (_ & Hnodes & _ & [l Hl] & _).
  split; [|split].
  - exists l. apply new_calls_app'. rewrite Hl. sched_cbn. by rewrite <- !app_assoc.
  - apply not_elem_of_dom. intros Hin. apply Hnodes in Hin. sched_cbn.
    apply elem_of_dom in Hin as [n Hn]. by rewrite lookup_delete_eq in Hn.
  - intros Hnone. unfold slaveLost. rewrite Hnone. sched_cbn.
    repeat split. apply new_calls_app'. sched_cbn. by rewrite <- app_assoc.
Qed.

Lemma slaveLost_loop_app exes1 exes2 started s :
  slaveLost_loop (exes1 ++ exes2) started s
  = match slaveLost_loop exes1 started s with
    | (s', Returned) => slaveLost_loop exes2 started s'
    | (s', Raised e) => (s', Raised e)
    end.
Proof.
  revert s. induction exes1 as [|[key exe] exes1 IH]; intros s; cbn [slaveLost_loop app]; [done|].
  destruct (slaveLost_exe key exe started s) as [s' [|e]]; [apply IH|done].
Qed.

(** X20: An exception of [execution_lost] that is not a [DatabaseError] leaves
    [slaveLost]: the executions that come after the failing one are not
    failed, and the task ids in the reconciliation set are those of the
    executions before it. *)
Theorem slaveLost_other_exception s agent_id started before p after e :
  executions_on_lost_node s agent_id = before ++ p :: after →
  Forall (lost_or_database_error started) before →
  (execution_lost p.2 started).2 = Raised e →
  e ≠ DatabaseError →
  (slaveLost s agent_id started).2 = Raised e
  ∧ filter is_execution_lost (new_calls s (slaveLost s agent_id started).1)
    = (λ q, exe_execution_lost q.1 started) <$> (before ++ [p])
  ∧ recon (slaveLost s agent_id started).1
    = recon s ∪ list_to_set (omap (task_to_reconcile started) before).
Proof.
  intros Hexes Hbefore Hp He. unfold executions_on_lost_node, slaveLost in *.
  destruct (nodes s !! agent_id) as [node|]; [|by destruct before].
  change (get_job_exes_on_node
            (log (offer_lost_node agent_id) (lost_node agent_id s)) (node_id node))
    with (get_job_exes_on_node s (node_id node)).
  rewrite Hexes, slaveLost_loop_app.
  destruct (slaveLost_loop_spec before started
              (log (running_get_job_exes_on_node (node_id node))
                   (log (offer_lost_node agent_id) (lost_node agent_id s))) Hbefore)
    as (Hret & Hrecon & _ & l & c & Hcalls & _ & Hfilter & _).
  destruct (slaveLost_loop before started _) as [s1 out1]. cbn [fst snd] in *. subst out1.
  destruct p as [key exe]. cbn [slaveLost_loop fst snd] in *. unfold slaveLost_exe.
  destruct (execution_lost exe started) as [exe' out]. cbn [snd] in Hp. subst out.
  destruct e; try done; cbn [fst snd]; sched_cbn;
    (split; [done|]); (split; [|exact Hrecon]);
    erewrite new_calls_app' by (sched_cbn; rewrite Hcalls, <- !app_assoc; reflexivity);
    cbn [app]; rewrite !filter_cons;
    repeat (rewrite decide_False by (cbn; tauto));
    rewrite filter_app, Hfilter, filter_cons, decide_True, filter_nil, fmap_app by (cbn; tauto);
    done.
Qed.

End SchedulerExtras.

(** ** Further scenarios of the scheduler *)

Section SchedulerExtraScenarios.
Import ScaleScheduler SchedulerSpec SchedulerObservations.

Lemma statusUpdate_dispatch_witness :
  filter is_transition
    (new_calls Fixture.s0
       (statusUpdate Fixture.s0 (mk_status "t2" TASK_FAILED None 5) 6).1)
  = [exe_task_fail 2 (mk_results "t2" None 5)].
Proof.
  apply (statusUpdate_dispatch Fixture.s0 (mk_status "t2" TASK_FAILED None 5) 6 2 Fixture.e2);
    reflexivity.
Defined.

Lemma statusUpdate_finished_execution_witness :
  "t1" ∈ recon (statusUpdate Fixture.s0 (mk_status "t1" TASK_FINISHED None 5) 6).1
  ∧ running (statusUpdate Fixture.s0 (mk_status "t1" TASK_FINISHED None 5) 6).1 !! 1
    = Some Fixture.e1
  ∧ cleanup (statusUpdate Fixture.s0 (mk_status "t1" TASK_FINISHED None 5) 6).1 = [].
Proof.
  exact (statusUpdate_finished_execution Fixture.s0 (mk_status "t1" TASK_FINISHED None 5) 6 1
           Fixture.e1 eq_refl eq_refl eq_refl eq_refl).
Defined.

Lemma statusUpdate_unparsable_task_id_witness :
  (statusUpdate Fixture.s0 (mk_status "t7" TASK_RUNNING None 5) 6).2 = Raised OtherException
  ∧ recon (statusUpdate Fixture.s0 (mk_status "t7" TASK_RUNNING None 5) 6).1
    = recon Fixture.s0 ∖ {["t7"]}
  ∧ running (statusUpdate Fixture.s0 (mk_status "t7" TASK_RUNNING None 5) 6).1
    = running Fixture.s0
  ∧ cleanup (statusUpdate Fixture.s0 (mk_status "t7" TASK_RUNNING None 5) 6).1
    = cleanup Fixture.s0
  ∧ new_calls Fixture.s0 (statusUpdate Fixture.s0 (mk_status "t7" TASK_RUNNING None 5) 6).1
    = [recon_remove_task_id "t7";
       task_update_add_status_update (mk_status "t7" TASK_RUNNING None 5)].
Proof.
  apply (statusUpdate_unparsable_task_id Fixture.s0 (mk_status "t7" TASK_RUNNING None 5) 6
           OtherException); reflexivity.
Defined.

Lemma reconcile_running_jobs_returns_witness :
  (_reconcile_running_jobs Fixture.s0 [1; 9] 6).2 = Returned
  ∧ recon (_reconcile_running_jobs Fixture.s0 [1; 9] 6).1
    = recon Fixture.s0 ∪ list_to_set (held_task_ids Fixture.s0 [1; 9])
  ∧ running (_reconcile_running_jobs Fixture.s0 [1; 9] 6).1 = running Fixture.s0
  ∧ filter is_handle_job_failure
      (new_calls Fixture.s0 (_reconcile_running_jobs Fixture.s0 [1; 9] 6).1)
    = (λ j, queue_handle_job_failure j 6 [] (mk_error "scheduler-lost"))
        <$> lost_job_exes Fixture.s0 [1; 9]
  ∧ ∃ before, new_calls Fixture.s0 (_reconcile_running_jobs Fixture.s0 [1; 9] 6).1
              = before ++ [recon_add_task_ids (held_task_ids Fixture.s0 [1; 9])].
Proof.
  apply (reconcile_running_jobs_returns Fixture.s0 [1; 9] 6).
  - repeat constructor.
  - repeat constructor.
Defined.

Lemma reconcile_running_jobs_raises_witness :
  recon (_reconcile_running_jobs FailingFixture.s0 [1; 9] 6).1 = recon FailingFixture.s0
  ∧ running (_reconcile_running_jobs FailingFixture.s0 [1; 9] 6).1 = running FailingFixture.s0
  ∧ Forall (λ c, ¬ is_recon_add c)
           (new_calls FailingFixture.s0 (_reconcile_running_jobs FailingFixture.s0 [1; 9] 6).1).
Proof.
  apply (reconcile_running_jobs_raises FailingFixture.s0 [1; 9] 6 DatabaseError).
  vm_compute. reflexivity.
Defined.

Lemma slaveLost_other_exception_witness :
  (slaveLost FailingFixture.s0 "a1" 6).2 = Raised OtherException
  ∧ filter is_execution_lost (new_calls FailingFixture.s0 (slaveLost FailingFixture.s0 "a1" 6).1)
    = [exe_execution_lost 3 6; exe_execution_lost 2 6]
  ∧ recon (slaveLost FailingFixture.s0 "a1" 6).1
    = recon FailingFixture.s0
      ∪ list_to_set (omap (task_to_reconcile 6) [(3, FailingFixture.e3)]).
Proof.
  apply (slaveLost_other_exception FailingFixture.s0 "a1" 6
           [(3, FailingFixture.e3)] (2, FailingFixture.e2) [(1, FailingFixture.e1)]
           OtherException).
  - vm_compute. reflexivity.
  - constructor; [right; reflexivity|constructor].
  - reflexivity.
  - discriminate.
Defined.

End SchedulerExtraScenarios.

(** ** The life cycle of the scheduler *)

Section LifecycleProperties.
Import Lifecycle LifecycleSpec.
Context {E : Type} `{!ScaleScheduler.Collaborators E} `{!Environment}.
Implicit Types s : Lifecycle.t E.

Ltac lc_unfold :=
  cbv [registered reregistered shutdown shutdown_thread start assign set_self
       set_recon_mgr_driver modify call thread sync_job_types _reconcile_running_jobs
       mbind M_bind mret M_ret new_events
       fst snd self recon_mgr_driver job_type_mgr managers events
       get_thread set_thread set_master
       _driver _framework_id _master_hostname _master_port
       _db_sync_thread _recon_thread _scheduling_thread _status_thread] in *.

Ltac lc_raises :=
  repeat match goal with
         | |- context [raises ?ev] => destruct (raises ev) eqn:?
         end.

Ltac lc_events :=
  rewrite <- ?app_assoc; cbn [app]; rewrite ?drop_app_length.

(** X21: When [registered] returns, the database has answered the sync of the
    job types and the cache holds its rows; the four background threads
    exist, the two that take the driver hold the one that was passed, as
    does the reconciliation manager; the calls made are those of the
    source in its order, the initial syncs before the threads are
    started; and the managers are as [_reconcile_running_jobs] leaves
    them. *)
Theorem registered_returns s driver frameworkId hostname port job_types job_exes now :
  (registered driver frameworkId hostname port job_types job_exes now s).2 = Done () →
  ∃ rows,
    job_types = ScaleScheduler.Ok rows
    ∧ self (registered driver frameworkId hostname port job_types job_exes now s).1
      = mk_attrs (Some driver) (Some frameworkId) (Some hostname) (Some port)
                 (Some (mk_thread (Some driver) None)) (Some (mk_thread None None))
                 (Some (mk_thread (Some driver) (Some frameworkId)))
                 (Some (mk_thread None None))
    ∧ recon_mgr_driver (registered driver frameworkId hostname port job_types job_exes now s).1
      = Some driver
    ∧ (∀ k, JobTypeManager.get_job_type
              (job_type_mgr
                 (registered driver frameworkId hostname port job_types job_exes now s).1) k
            = last (filter (λ job_type, JobType.id job_type = k) rows))
    ∧ managers (registered driver frameworkId hostname port job_types job_exes now s).1
      = (ScaleScheduler._reconcile_running_jobs (managers s) job_exes now).1
    ∧ new_events s (registered driver frameworkId hostname port job_types job_exes now s).1
      = [initialize_system;
         Scheduler_update_master hostname port;
         scheduler_mgr_update_from_mesos (Some frameworkId) hostname port;
         job_type_mgr_sync_with_database;
         scheduler_mgr_sync_with_database;
         workspace_mgr_sync_with_database;
         thread_start db_sync_thread;
         thread_start recon_thread;
         thread_start scheduling_thread;
         thread_start status_thread].
Proof.
  destruct s as [[d f h p t1 t2 t3 t4] r j m ev].
  destruct job_types as [rows|e]; lc_unfold; cbn [JobTypeManager.sync_with_database];
    lc_raises; try discriminate;
    destruct (ScaleScheduler._reconcile_running_jobs m job_exes now) as [mgrs [|e']];
    try discriminate.
  intros _. exists rows. split; [done|]. split; [done|]. split; [done|].
  split; [|split; [done|]].
  - intros k. apply (sync_with_database_get j rows k).
  - by lc_events.
Qed.

(** X22: [registered] starts no background thread before the initial sync
    with the database is over: when it starts a thread at all, whether or
    not it returns afterwards, the three syncs have returned, the cache of
    the job types holds the rows of the database, and the scheduler holds
    the thread it started, so that [shutdown] can reach it. *)
Theorem registered_syncs_before_threads
    s driver frameworkId hostname port job_types job_exes now target :
  thread_start target
    ∈ new_events s (registered driver frameworkId hostname port job_types job_exes now s).1 →
  (∃ rows,
     job_types = ScaleScheduler.Ok rows
     ∧ ∀ k, JobTypeManager.get_job_type
              (job_type_mgr
                 (registered driver frameworkId hostname port job_types job_exes now s).1) k
            = last (filter (λ job_type, JobType.id job_type = k) rows))
  ∧ raises scheduler_mgr_sync_with_database = None
  ∧ raises workspace_mgr_sync_with_database = None
  ∧ is_Some (get_thread
               (self (registered driver frameworkId hostname port job_types job_exes now s).1)
               target)
  ∧ ∃ rest,
      new_events s (registered driver frameworkId hostname port job_types job_exes now s).1
      = [initialize_system;
         Scheduler_update_master hostname port;
         scheduler_mgr_update_from_mesos (Some frameworkId) hostname port;
         job_type_mgr_sync_with_database;
         scheduler_mgr_sync_with_database;
         workspace_mgr_sync_with_database;
         thread_start db_sync_thread] ++ rest.
Proof.
  destruct s as [[d f h p t1 t2 t3 t4] r j m ev].
  destruct job_types as [rows|e]; lc_unfold; cbn [JobTypeManager.sync_with_database];
    lc_raises;
    try destruct (ScaleScheduler._reconcile_running_jobs m job_exes now) as [mgrs [|e']];
    lc_events; intros Hin;
    repeat (apply elem_of_cons in Hin as [Hin|Hin]; [try discriminate Hin|]);
    try (by apply elem_of_nil in Hin);
    try injection Hin as ->;
    (split; [exists rows; split; [done|]; intros k; apply (sync_with_database_get j rows k)|]);
    (split; [done|]); (split; [done|]); (split; [by eexists|]); by eexists.
Qed.

Lemma shutdown_done s :
  (shutdown s).2 = Done ()
  ↔ (∀ target, is_Some (get_thread (self s) target))
    ∧ (∀ target, raises (thread_shutdown target) = None).
Proof.
  destruct s as [[d f h p t1 t2 t3 t4] r j m ev]. split.
  - intros Hdone. revert Hdone. lc_unfold.
    destruct t1; [|discriminate].
    destruct (raises (thread_shutdown db_sync_thread)) eqn:?; [discriminate|].
    destruct t2; [|discriminate].
    destruct (raises (thread_shutdown recon_thread)) eqn:?; [discriminate|].
    destruct t3; [|discriminate].
    destruct (raises (thread_shutdown scheduling_thread)) eqn:?; [discriminate|].
    destruct t4; [|discriminate].
    destruct (raises (thread_shutdown status_thread)) eqn:?; [discriminate|].
    intros _. split; intros target; by destruct target.
  - intros [Hth Hr].
    pose proof (Hth db_sync_thread) as [? H1]. pose proof (Hth recon_thread) as [? H2].
    pose proof (Hth scheduling_thread) as [? H3]. pose proof (Hth status_thread) as [? H4].
    lc_unfold. rewrite H1, H2, H3, H4. by rewrite !Hr.
Qed.

Lemma registered_done_threads s driver frameworkId hostname port job_types job_exes now :
  (registered driver frameworkId hostname port job_types job_exes now s).2 = Done () →
  ∀ target,
    is_Some (get_thread
               (self (registered driver frameworkId hostname port job_types job_exes now s).1)
               target).
Proof.
  destruct s as [[d f h p t1 t2 t3 t4] r j m ev].
  destruct job_types as [rows|e]; lc_unfold; cbn [JobTypeManager.sync_with_database];
    lc_raises; try discriminate;
    destruct (ScaleScheduler._reconcile_running_jobs m job_exes now) as [mgrs [|e']];
    try discriminate.
  intros _ target. by destruct target.
Qed.

(** X23: [shutdown] returns exactly when the four background threads exist
    and none of their [shutdown] methods raises; it has then told the
    four to stop, in the order db sync, reconciliation, scheduling, status,
    and changed nothing else. *)
Theorem shutdown_returns_iff s :
  ((shutdown s).2 = Done ()
   ↔ (∀ target, is_Some (get_thread (self s) target))
     ∧ (∀ target, raises (thread_shutdown target) = None))
  ∧ ((shutdown s).2 = Done () →
     new_events s (shutdown s).1
     = [thread_shutdown db_sync_thread; thread_shutdown recon_thread;
        thread_shutdown scheduling_thread; thread_shutdown status_thread]
     ∧ self (shutdown s).1 = self s
     ∧ managers (shutdown s).1 = managers s).
Proof.
  split; [apply shutdown_done|].
  destruct s as [[d f h p t1 t2 t3 t4] r j m ev]. lc_unfold.
  destruct t1; [|discriminate]. destruct (raises (thread_shutdown db_sync_thread));
    [discriminate|].
  destruct t2; [|discriminate]. destruct (raises (thread_shutdown recon_thread));
    [discriminate|].
  destruct t3; [|discriminate]. destruct (raises (thread_shutdown scheduling_thread));
    [discriminate|].
  destruct t4; [|discriminate]. destruct (raises (thread_shutdown status_thread));
    [discriminate|].
  intros _. split; [by lc_events|done].
Qed.

(** X24: [shutdown] on a scheduler that has not been registered raises
    [AttributeError] on the first thread, which is still [None], and tells
    no thread to stop; after a [registered] that returned, and when no
    [shutdown] of a thread raises, it returns. *)
Theorem shutdown_needs_registered job_type_mgr0 (mgrs : ScaleScheduler.t E) :
  shutdown (init job_type_mgr0 mgrs) = (init job_type_mgr0 mgrs, Failed AttributeError)
  ∧ ∀ s driver frameworkId hostname port job_types job_exes now,
      (registered driver frameworkId hostname port job_types job_exes now s).2 = Done () →
      (∀ target, raises (thread_shutdown target) = None) →
      (shutdown (registered driver frameworkId hostname port job_types job_exes now s).1).2
      = Done ().
Proof.
  split; [done|].
  intros s driver frameworkId hostname port job_types job_exes now Hreg Hr.
  apply shutdown_done. split; [|done]. by apply registered_done_threads.
Qed.

(** X25: [reregistered] on a scheduler without its db sync thread or without
    its scheduling thread, as before [registered], does not return, and
    does not come to reconcile the running jobs: the managers of the
    callbacks are as before. *)
Theorem reregistered_without_threads s driver hostname port job_exes now :
  get_thread (self s) db_sync_thread = None ∨ get_thread (self s) scheduling_thread = None →
  (reregistered driver hostname port job_exes now s).2 ≠ Done ()
  ∧ managers (reregistered driver hostname port job_exes now s).1 = managers s.
Proof.
  destruct s as [[d f h p t1 t2 t3 t4] r j m ev]. lc_unfold.
  intros [-> | ->]; lc_raises; try destruct t1; try destruct t3; done.
Qed.

(** X26: When [reregistered] returns, the scheduler, its db sync thread, its
    scheduling thread and the reconciliation manager hold the new driver;
    the framework id, the other two threads and the cache of the job
    types are as before; the master has been recorded, and the managers
    are as [_reconcile_running_jobs] leaves them. *)
Theorem reregistered_returns s driver hostname port job_exes now :
  (reregistered driver hostname port job_exes now s).2 = Done () →
  ∃ db sched,
    get_thread (self s) db_sync_thread = Some db
    ∧ get_thread (self s) scheduling_thread = Some sched
    ∧ self (reregistered driver hostname port job_exes now s).1
      = mk_attrs (Some driver) (_framework_id (self s)) (Some hostname) (Some port)
                 (Some (mk_thread (Some driver) (framework_id db)))
                 (_recon_thread (self s))
                 (Some (mk_thread (Some driver) (framework_id sched)))
                 (_status_thread (self s))
    ∧ recon_mgr_driver (reregistered driver hostname port job_exes now s).1 = Some driver
    ∧ job_type_mgr (reregistered driver hostname port job_exes now s).1 = job_type_mgr s
    ∧ managers (reregistered driver hostname port job_exes now s).1
      = (ScaleScheduler._reconcile_running_jobs (managers s) job_exes now).1
    ∧ new_events s (reregistered driver hostname port job_exes now s).1
      = [Scheduler_update_master hostname port;
         scheduler_mgr_update_from_mesos None hostname port].
Proof.
  destruct s as [[d f h p t1 t2 t3 t4] r j m ev]. lc_unfold.
  lc_raises; try discriminate.
  destruct t1 as [db|]; [|discriminate]. destruct t3 as [sched|]; [|discriminate].
  destruct (ScaleScheduler._reconcile_running_jobs m job_exes now) as [mgrs [|e']];
    [|discriminate].
  intros _. exists db, sched. repeat split. by lc_events.
Qed.

End LifecycleProperties.

(** ** Scenarios of the life cycle *)

Section LifecycleScenarios.
Import Lifecycle LifecycleSpec LifecycleFixture.

Lemma registered_returns_witness :
  ∃ rows,
    ScaleScheduler.Ok [jt1; jt2] = ScaleScheduler.Ok rows
    ∧ self (registered 1 "fw" "master" 5050 (ScaleScheduler.Ok [jt1; jt2]) [1] 0 fresh).1
      = mk_attrs (Some 1) (Some "fw") (Some "master") (Some 5050)
                 (Some (mk_thread (Some 1) None)) (Some (mk_thread None None))
                 (Some (mk_thread (Some 1) (Some "fw"))) (Some (mk_thread None None))
    ∧ recon_mgr_driver
        (registered 1 "fw" "master" 5050 (ScaleScheduler.Ok [jt1; jt2]) [1] 0 fresh).1 = Some 1
    ∧ (∀ k, JobTypeManager.get_job_type
              (job_type_mgr
                 (registered 1 "fw" "master" 5050 (ScaleScheduler.Ok [jt1; jt2]) [1] 0 fresh).1) k
            = last (filter (λ job_type, JobType.id job_type = k) rows))
    ∧ managers (registered 1 "fw" "master" 5050 (ScaleScheduler.Ok [jt1; jt2]) [1] 0 fresh).1
      = (ScaleScheduler._reconcile_running_jobs (managers fresh) [1] 0).1
    ∧ new_events fresh
        (registered 1 "fw" "master" 5050 (ScaleScheduler.Ok [jt1; jt2]) [1] 0 fresh).1
      = [initialize_system;
         Scheduler_update_master "master" 5050;
         scheduler_mgr_update_from_mesos (Some "fw") "master" 5050;
         job_type_mgr_sync_with_database;
         scheduler_mgr_sync_with_database;
         workspace_mgr_sync_with_database;
         thread_start db_sync_thread;
         thread_start recon_thread;
         thread_start scheduling_thread;
         thread_start status_thread].
Proof.
  apply (registered_returns fresh 1 "fw" "master" 5050 (ScaleScheduler.Ok [jt1; jt2]) [1] 0).
  vm_compute. reflexivity.
Defined.

Lemma registered_syncs_before_threads_witness :
  is_Some (get_thread
             (self (registered 1 "fw" "master" 5050 (ScaleScheduler.Ok [jt1; jt2]) [1] 0
                      fresh).1)
             scheduling_thread).
Proof.
  apply (registered_syncs_before_threads fresh 1 "fw" "master" 5050
           (ScaleScheduler.Ok [jt1; jt2]) [1] 0 scheduling_thread).
  apply (bool_decide_unpack _). vm_compute. exact I.
Defined.

Lemma shutdown_returns_iff_witness :
  new_events (registered 1 "fw" "master" 5050 (ScaleScheduler.Ok [jt1; jt2]) [1] 0 fresh).1
    (shutdown (registered 1 "fw" "master" 5050 (ScaleScheduler.Ok [jt1; jt2]) [1] 0 fresh).1).1
  = [thread_shutdown db_sync_thread; thread_shutdown recon_thread;
     thread_shutdown scheduling_thread; thread_shutdown status_thread].
Proof.
  apply (shutdown_returns_iff
           (registered 1 "fw" "master" 5050 (ScaleScheduler.Ok [jt1; jt2]) [1] 0 fresh).1).
  vm_compute. reflexivity.
Defined.

Lemma shutdown_needs_registered_witness :
  (shutdown (registered 1 "fw" "master" 5050 (ScaleScheduler.Ok [jt1; jt2]) [1] 0 fresh).1).2
  = Done ().
Proof.
  apply (shutdown_needs_registered JobTypeManager.init Fixture.s0).
  - vm_compute. reflexivity.
  - reflexivity.
Defined.

Lemma reregistered_without_threads_witness :
  (reregistered 2 "master2" 5051 [1] 0 fresh).2 ≠ Done ()
  ∧ managers (reregistered 2 "master2" 5051 [1] 0 fresh).1 = managers fresh.
Proof.
  apply (reregistered_without_threads fresh 2 "master2" 5051 [1] 0).
  left. reflexivity.
Defined.

Lemma reregistered_returns_witness :
  recon_mgr_driver
    (reregistered 2 "master2" 5051 [1] 0
       (registered 1 "fw" "master" 5050 (ScaleScheduler.Ok [jt1; jt2]) [1] 0 fresh).1).1
  = Some 2.
Proof.
  destruct (reregistered_returns
              (registered 1 "fw" "master" 5050 (ScaleScheduler.Ok [jt1; jt2]) [1] 0 fresh).1
              2 "master2" 5051 [1] 0) as (db & sched & _ & _ & _ & Hdriver & _).
  - vm_compute. reflexivity.
  - exact Hdriver.
Defined.

End LifecycleScenarios.

(** ** A scenario of the job type manager *)

Section JobTypeScenarios.
Import JobTypeManager LifecycleFixture.

Lemma generate_status_json_job_types_witness :
  ∃ entries,
    generate_status_json (sync_with_database init (ScaleScheduler.Ok [jt1; jt2])).1 ∅
      !! "job_types" = Some entries
    ∧ entries ≡ₚ job_type_dict_of <$> [jt1; jt2].
Proof.
  apply (generate_status_json_job_types init [jt1; jt2] ∅).
  apply (bool_decide_unpack _). vm_compute. exact I.
Defined.

End JobTypeScenarios.
